(** * NVMe stress-test report pipeline: log extraction, peak merge, aggregation
      and report assembly (generate_report.py, update_report_with_peak_perf.py)

    The Python code is embedded shallowly.  Text is a list of characters whose
    codes lie below 256; the regular expressions of the parser are values of a
    small syntax tree run by a backtracking matcher that explores alternatives
    in the order of Python's [re] module.  The HTML document is represented by
    the values that the templates interpolate, in a record per card. *)

From Stdlib Require Import Ascii String DecimalString DecimalPos.
From Stdlib Require Import List Bool Arith ZArith QArith Lia Permutation Sorted.
Import ListNotations.

Set Implicit Arguments.

Close Scope Q_scope.
Local Open Scope list_scope.

(** ** Text *)

Definition text := list ascii.

Definition txt (s : string) : text := list_ascii_of_string s.
Arguments txt s%_string.

Fixpoint text_eqb (a b : text) : bool :=
  match a, b with
  | [], [] => true
  | x :: a', y :: b' => Ascii.eqb x y && text_eqb a' b'
  | _, _ => false
  end.

(** [str.isspace] / [\s] on code points below 256. *)
Definition isspace (c : ascii) : bool :=
  let n := N_of_ascii c in
  (((9 <=? n) && (n <=? 13)) || ((28 <=? n) && (n <=? 32))
   || (n =? 133) || (n =? 160))%N.

(** [\d] on code points below 256. *)
Definition isdigit (c : ascii) : bool :=
  let n := N_of_ascii c in ((48 <=? n) && (n <=? 57))%N.

Fixpoint dropwhile (p : ascii -> bool) (s : text) : text :=
  match s with
  | c :: s' => if p c then dropwhile p s' else s
  | [] => []
  end.

Fixpoint takewhile (p : ascii -> bool) (s : text) : text :=
  match s with
  | c :: s' => if p c then c :: takewhile p s' else []
  | [] => []
  end.

(** [s.strip()] *)
Definition strip (s : text) : text :=
  rev (dropwhile isspace (rev (dropwhile isspace s))).

(** [s.startswith(p)] *)
Fixpoint prefixb (p s : text) : bool :=
  match p, s with
  | [], _ => true
  | x :: p', y :: s' => Ascii.eqb x y && prefixb p' s'
  | _ :: _, [] => false
  end.

(** [sub in s] for strings. *)
Fixpoint contains (sub s : text) : bool :=
  prefixb sub s ||
  match s with
  | [] => false
  | _ :: s' => contains sub s'
  end.

(** [s.split(sep)] for a non-empty separator: occurrences are found from left
    to right and do not overlap.  [skip] counts the characters of a separator
    just found that are still to be passed over; [acc] holds the current piece,
    reversed. *)
Fixpoint split_go (sep : text) (skip : nat) (acc : text) (s : text)
  : list text :=
  match s with
  | [] => [rev acc]
  | c :: s' =>
      match skip with
      | S k => split_go sep k acc s'
      | O =>
          if prefixb sep s
          then rev acc :: split_go sep (length sep - 1) [] s'
          else split_go sep 0 (c :: acc) s'
      end
  end.

Definition str_split (sep s : text) : list text := split_go sep 0 [] s.

(** [s.split()[0]]: the first whitespace-delimited token; [None] stands for
    the [IndexError] on a string without tokens. *)
Definition first_token (s : text) : option text :=
  match takewhile (fun c => negb (isspace c)) (dropwhile isspace s) with
  | [] => None
  | t => Some t
  end.

(** *** Integers and their decimal text *)

Definition digit_val (c : ascii) : Z := Z.of_N (N_of_ascii c) - 48.

(** Digits with single underscores between them, as [int()] accepts.
    [acc] is the value read so far, [prev] tells whether the previous
    character was a digit. *)
Fixpoint int_digits (acc : Z) (prev : bool) (s : text) : option Z :=
  match s with
  | [] => if prev then Some acc else None
  | c :: s' =>
      if isdigit c then int_digits (10 * acc + digit_val c) true s'
      else if Ascii.eqb c "_" then
             if prev then int_digits acc false s' else None
           else None
  end.

(** [int(s)] in base 10; [None] stands for [ValueError]. *)
Definition py_int (s : text) : option Z :=
  match strip s with
  | c :: s' =>
      if Ascii.eqb c "-" then option_map Z.opp (int_digits 0 false s')
      else if Ascii.eqb c "+" then int_digits 0 false s'
      else int_digits 0 false (c :: s')
  | [] => None
  end.

(** [f"{n}"] for an integer. *)
Definition show_int (n : Z) : text :=
  txt (NilZero.string_of_int (Z.to_int n)).

(** ** Regular expressions *)

(** The constructs that occur in the patterns of the parser: literal text,
    a repeated character class (greedy or lazy, with a minimum count), an
    optional character, concatenation and numbered groups. *)
Inductive re : Type :=
| Lit (l : text)
| Rep (p : ascii -> bool) (lo : nat) (greedy : bool)
| Opt (p : ascii -> bool)
| Cat (r1 r2 : re)
| Grp (n : nat) (r : re).

Definition caps := list (nat * text).

(** The remainders left by consuming 0, 1, 2, ... characters of class [p],
    shortest consumption first. *)
Fixpoint reps (p : ascii -> bool) (s : text) : list text :=
  s :: match s with
       | c :: s' => if p c then reps p s' else []
       | [] => []
       end.

(** All ways to match [r] at the start of [s], in the order a backtracking
    matcher tries them: each result is the groups recorded and the text left. *)
Fixpoint run (r : re) (s : text) (cs : caps) : list (caps * text) :=
  match r with
  | Lit l => if prefixb l s then [(cs, skipn (length l) s)] else []
  | Rep p lo greedy =>
      let ends := skipn lo (reps p s) in
      map (fun s' => (cs, s')) (if greedy then rev ends else ends)
  | Opt p =>
      match s with
      | c :: s' => if p c then [(cs, s'); (cs, s)] else [(cs, s)]
      | [] => [(cs, s)]
      end
  | Cat r1 r2 => flat_map (fun x => run r2 (snd x) (fst x)) (run r1 s cs)
  | Grp n r1 =>
      map (fun x => ((n, firstn (length s - length (snd x)) s) :: fst x, snd x))
          (run r1 s cs)
  end.

(** [re.search(r, s)]: the first match at the leftmost position that has one. *)
Fixpoint search (r : re) (s : text) : option caps :=
  match run r s [] with
  | (cs, _) :: _ => Some cs
  | [] => match s with
          | [] => None
          | _ :: s' => search r s'
          end
  end.

(** [m.group(n)] *)
Fixpoint group (n : nat) (cs : caps) : text :=
  match cs with
  | [] => []
  | (k, v) :: cs' => if Nat.eqb k n then v else group n cs'
  end.

(** [re.findall(r, s)] for patterns whose matches are never empty: matches
    are taken from left to right and do not overlap.  [skip] counts the
    characters of the last match still to be passed over. *)
Fixpoint findall_go (r : re) (skip : nat) (s : text) : list caps :=
  match s with
  | [] => []
  | _ :: s' =>
      match skip with
      | S k => findall_go r k s'
      | O =>
          match run r s [] with
          | (cs, rest) :: _ =>
              cs :: findall_go r (length s - length rest - 1) s'
          | [] => findall_go r 0 s'
          end
      end
  end.

Definition findall (r : re) (s : text) : list caps := findall_go r 0 s.

(** Character classes of the patterns. *)
Definition dot (c : ascii) : bool := negb (Ascii.eqb c "010").
Definition any (c : ascii) : bool := true.
Definition digit_or_comma (c : ascii) : bool := isdigit c || Ascii.eqb c ",".
Definition digit_or_point (c : ascii) : bool := isdigit c || Ascii.eqb c ".".
Definition k_or_M (c : ascii) : bool := Ascii.eqb c "k" || Ascii.eqb c "M".

Definition cats (rs : list re) : re := fold_right Cat (Lit []) rs.

(** ** generate_report.py: NVMeLogParser *)

(** The dictionary [self.data].  Its keys are fixed, so it is a record; the
    two keys that only update_report_with_peak_perf.py adds are optional. *)
Record drive_data : Type := Build_drive_data {
  drive_name : text;
  model : text;
  serial : text;
  firmware : text;
  capacity : text;
  nvme_version : text;
  pci_gen : text;
  health_status : text;
  temp_before : text;
  temp_after : text;
  temp_sensors_after : list (text * text);
  percentage_used : text;
  data_read : text;
  data_written : text;
  read_iops : text;
  read_bw : text;
  write_iops : text;
  write_bw : text;
  checkpoint_write_iops : text;
  checkpoint_write_bw : text;
  errors : Z;
  test_duration : text;
  workload : text;
  peak_read_bw : option text;
  peak_write_bw : option text
}.

Definition Unknown : text := txt "Unknown".

(** [NVMeLogParser.__init__]; [name] is [Path(log_file).stem]. *)
Definition init_data (name : text) : drive_data :=
  {| drive_name := name;
     model := Unknown;
     serial := Unknown;
     firmware := Unknown;
     capacity := Unknown;
     nvme_version := Unknown;
     pci_gen := Unknown;
     health_status := Unknown;
     temp_before := Unknown;
     temp_after := Unknown;
     temp_sensors_after := [];
     percentage_used := Unknown;
     data_read := Unknown;
     data_written := Unknown;
     read_iops := Unknown;
     read_bw := Unknown;
     write_iops := Unknown;
     write_bw := Unknown;
     checkpoint_write_iops := Unknown;
     checkpoint_write_bw := Unknown;
     errors := 0;
     test_duration := txt "10 minutes";
     workload := txt "AI Data Load & Model Checkpoint";
     peak_read_bw := None;
     peak_write_bw := None |}.

(** Assignments [self.data[key] = v]. *)
Definition set_model (v : text) (d : drive_data) : drive_data :=
  let '(Build_drive_data a0 _ a2 a3 a4 a5 a6 a7 a8 a9 b0 b1 b2 b3 b4 b5 b6 b7 b8 b9 c0 c1 c2 c3 c4) := d in
  Build_drive_data a0 v a2 a3 a4 a5 a6 a7 a8 a9 b0 b1 b2 b3 b4 b5 b6 b7 b8 b9 c0 c1 c2 c3 c4.
Definition set_serial (v : text) (d : drive_data) : drive_data :=
  let '(Build_drive_data a0 a1 _ a3 a4 a5 a6 a7 a8 a9 b0 b1 b2 b3 b4 b5 b6 b7 b8 b9 c0 c1 c2 c3 c4) := d in
  Build_drive_data a0 a1 v a3 a4 a5 a6 a7 a8 a9 b0 b1 b2 b3 b4 b5 b6 b7 b8 b9 c0 c1 c2 c3 c4.
Definition set_firmware (v : text) (d : drive_data) : drive_data :=
  let '(Build_drive_data a0 a1 a2 _ a4 a5 a6 a7 a8 a9 b0 b1 b2 b3 b4 b5 b6 b7 b8 b9 c0 c1 c2 c3 c4) := d in
  Build_drive_data a0 a1 a2 v a4 a5 a6 a7 a8 a9 b0 b1 b2 b3 b4 b5 b6 b7 b8 b9 c0 c1 c2 c3 c4.
Definition set_capacity (v : text) (d : drive_data) : drive_data :=
  let '(Build_drive_data a0 a1 a2 a3 _ a5 a6 a7 a8 a9 b0 b1 b2 b3 b4 b5 b6 b7 b8 b9 c0 c1 c2 c3 c4) := d in
  Build_drive_data a0 a1 a2 a3 v a5 a6 a7 a8 a9 b0 b1 b2 b3 b4 b5 b6 b7 b8 b9 c0 c1 c2 c3 c4.
Definition set_nvme_version (v : text) (d : drive_data) : drive_data :=
  let '(Build_drive_data a0 a1 a2 a3 a4 _ a6 a7 a8 a9 b0 b1 b2 b3 b4 b5 b6 b7 b8 b9 c0 c1 c2 c3 c4) := d in
  Build_drive_data a0 a1 a2 a3 a4 v a6 a7 a8 a9 b0 b1 b2 b3 b4 b5 b6 b7 b8 b9 c0 c1 c2 c3 c4.
Definition set_health_status (v : text) (d : drive_data) : drive_data :=
  let '(Build_drive_data a0 a1 a2 a3 a4 a5 a6 _ a8 a9 b0 b1 b2 b3 b4 b5 b6 b7 b8 b9 c0 c1 c2 c3 c4) := d in
  Build_drive_data a0 a1 a2 a3 a4 a5 a6 v a8 a9 b0 b1 b2 b3 b4 b5 b6 b7 b8 b9 c0 c1 c2 c3 c4.
Definition set_temp_before (v : text) (d : drive_data) : drive_data :=
  let '(Build_drive_data a0 a1 a2 a3 a4 a5 a6 a7 _ a9 b0 b1 b2 b3 b4 b5 b6 b7 b8 b9 c0 c1 c2 c3 c4) := d in
  Build_drive_data a0 a1 a2 a3 a4 a5 a6 a7 v a9 b0 b1 b2 b3 b4 b5 b6 b7 b8 b9 c0 c1 c2 c3 c4.
Definition set_temp_after (v : text) (d : drive_data) : drive_data :=
  let '(Build_drive_data a0 a1 a2 a3 a4 a5 a6 a7 a8 _ b0 b1 b2 b3 b4 b5 b6 b7 b8 b9 c0 c1 c2 c3 c4) := d in
  Build_drive_data a0 a1 a2 a3 a4 a5 a6 a7 a8 v b0 b1 b2 b3 b4 b5 b6 b7 b8 b9 c0 c1 c2 c3 c4.
Definition set_temp_sensors_after (v : list (text * text)) (d : drive_data)
  : drive_data :=
  let '(Build_drive_data a0 a1 a2 a3 a4 a5 a6 a7 a8 a9 _ b1 b2 b3 b4 b5 b6 b7 b8 b9 c0 c1 c2 c3 c4) := d in
  Build_drive_data a0 a1 a2 a3 a4 a5 a6 a7 a8 a9 v b1 b2 b3 b4 b5 b6 b7 b8 b9 c0 c1 c2 c3 c4.
Definition set_percentage_used (v : text) (d : drive_data) : drive_data :=
  let '(Build_drive_data a0 a1 a2 a3 a4 a5 a6 a7 a8 a9 b0 _ b2 b3 b4 b5 b6 b7 b8 b9 c0 c1 c2 c3 c4) := d in
  Build_drive_data a0 a1 a2 a3 a4 a5 a6 a7 a8 a9 b0 v b2 b3 b4 b5 b6 b7 b8 b9 c0 c1 c2 c3 c4.
Definition set_data_read (v : text) (d : drive_data) : drive_data :=
  let '(Build_drive_data a0 a1 a2 a3 a4 a5 a6 a7 a8 a9 b0 b1 _ b3 b4 b5 b6 b7 b8 b9 c0 c1 c2 c3 c4) := d in
  Build_drive_data a0 a1 a2 a3 a4 a5 a6 a7 a8 a9 b0 b1 v b3 b4 b5 b6 b7 b8 b9 c0 c1 c2 c3 c4.
Definition set_data_written (v : text) (d : drive_data) : drive_data :=
  let '(Build_drive_data a0 a1 a2 a3 a4 a5 a6 a7 a8 a9 b0 b1 b2 _ b4 b5 b6 b7 b8 b9 c0 c1 c2 c3 c4) := d in
  Build_drive_data a0 a1 a2 a3 a4 a5 a6 a7 a8 a9 b0 b1 b2 v b4 b5 b6 b7 b8 b9 c0 c1 c2 c3 c4.
Definition set_read_iops (v : text) (d : drive_data) : drive_data :=
  let '(Build_drive_data a0 a1 a2 a3 a4 a5 a6 a7 a8 a9 b0 b1 b2 b3 _ b5 b6 b7 b8 b9 c0 c1 c2 c3 c4) := d in
  Build_drive_data a0 a1 a2 a3 a4 a5 a6 a7 a8 a9 b0 b1 b2 b3 v b5 b6 b7 b8 b9 c0 c1 c2 c3 c4.
Definition set_read_bw (v : text) (d : drive_data) : drive_data :=
  let '(Build_drive_data a0 a1 a2 a3 a4 a5 a6 a7 a8 a9 b0 b1 b2 b3 b4 _ b6 b7 b8 b9 c0 c1 c2 c3 c4) := d in
  Build_drive_data a0 a1 a2 a3 a4 a5 a6 a7 a8 a9 b0 b1 b2 b3 b4 v b6 b7 b8 b9 c0 c1 c2 c3 c4.
Definition set_write_iops (v : text) (d : drive_data) : drive_data :=
  let '(Build_drive_data a0 a1 a2 a3 a4 a5 a6 a7 a8 a9 b0 b1 b2 b3 b4 b5 _ b7 b8 b9 c0 c1 c2 c3 c4) := d in
  Build_drive_data a0 a1 a2 a3 a4 a5 a6 a7 a8 a9 b0 b1 b2 b3 b4 b5 v b7 b8 b9 c0 c1 c2 c3 c4.
Definition set_write_bw (v : text) (d : drive_data) : drive_data :=
  let '(Build_drive_data a0 a1 a2 a3 a4 a5 a6 a7 a8 a9 b0 b1 b2 b3 b4 b5 b6 _ b8 b9 c0 c1 c2 c3 c4) := d in
  Build_drive_data a0 a1 a2 a3 a4 a5 a6 a7 a8 a9 b0 b1 b2 b3 b4 b5 b6 v b8 b9 c0 c1 c2 c3 c4.
Definition set_checkpoint_write_iops (v : text) (d : drive_data) : drive_data :=
  let '(Build_drive_data a0 a1 a2 a3 a4 a5 a6 a7 a8 a9 b0 b1 b2 b3 b4 b5 b6 b7 _ b9 c0 c1 c2 c3 c4) := d in
  Build_drive_data a0 a1 a2 a3 a4 a5 a6 a7 a8 a9 b0 b1 b2 b3 b4 b5 b6 b7 v b9 c0 c1 c2 c3 c4.
Definition set_checkpoint_write_bw (v : text) (d : drive_data) : drive_data :=
  let '(Build_drive_data a0 a1 a2 a3 a4 a5 a6 a7 a8 a9 b0 b1 b2 b3 b4 b5 b6 b7 b8 _ c0 c1 c2 c3 c4) := d in
  Build_drive_data a0 a1 a2 a3 a4 a5 a6 a7 a8 a9 b0 b1 b2 b3 b4 b5 b6 b7 b8 v c0 c1 c2 c3 c4.
Definition set_errors (v : Z) (d : drive_data) : drive_data :=
  let '(Build_drive_data a0 a1 a2 a3 a4 a5 a6 a7 a8 a9 b0 b1 b2 b3 b4 b5 b6 b7 b8 b9 _ c1 c2 c3 c4) := d in
  Build_drive_data a0 a1 a2 a3 a4 a5 a6 a7 a8 a9 b0 b1 b2 b3 b4 b5 b6 b7 b8 b9 v c1 c2 c3 c4.
Definition set_peak_read_bw (v : text) (d : drive_data) : drive_data :=
  let '(Build_drive_data a0 a1 a2 a3 a4 a5 a6 a7 a8 a9 b0 b1 b2 b3 b4 b5 b6 b7 b8 b9 c0 c1 c2 _ c4) := d in
  Build_drive_data a0 a1 a2 a3 a4 a5 a6 a7 a8 a9 b0 b1 b2 b3 b4 b5 b6 b7 b8 b9 c0 c1 c2 (Some v) c4.
Definition set_peak_write_bw (v : text) (d : drive_data) : drive_data :=
  let '(Build_drive_data a0 a1 a2 a3 a4 a5 a6 a7 a8 a9 b0 b1 b2 b3 b4 b5 b6 b7 b8 b9 c0 c1 c2 c3 _) := d in
  Build_drive_data a0 a1 a2 a3 a4 a5 a6 a7 a8 a9 b0 b1 b2 b3 b4 b5 b6 b7 b8 b9 c0 c1 c2 c3 (Some v).

(** The patterns of [parse], in the order of the source. *)
Definition labelled (label : string) : re :=
  cats [Lit (txt label); Rep isspace 1 true; Grp 1 (Rep dot 1 true)].

(* Model Number:\s+(.+) *)
Definition re_model : re := labelled "Model Number:".
(* Serial Number:\s+(.+) *)
Definition re_serial : re := labelled "Serial Number:".
(* Firmware Version:\s+(.+) *)
Definition re_firmware : re := labelled "Firmware Version:".
(* Total NVM Capacity:\s+[\d,]+\s+\[(.+?)\] *)
Definition re_capacity : re :=
  cats [Lit (txt "Total NVM Capacity:"); Rep isspace 1 true;
        Rep digit_or_comma 1 true; Rep isspace 1 true; Lit (txt "[");
        Grp 1 (Rep dot 1 false); Lit (txt "]")].
(* NVMe Version:\s+(.+) *)
Definition re_nvme_version : re := labelled "NVMe Version:".
(* SMART overall-health self-assessment test result:\s+(.+) *)
Definition re_health : re :=
  labelled "SMART overall-health self-assessment test result:".
(* Temperature:\s+(\d+)\s+Celsius *)
Definition re_temperature : re :=
  cats [Lit (txt "Temperature:"); Rep isspace 1 true;
        Grp 1 (Rep isdigit 1 true); Rep isspace 1 true; Lit (txt "Celsius")].
(* Percentage Used:\s+(.+?)% *)
Definition re_percentage : re :=
  cats [Lit (txt "Percentage Used:"); Rep isspace 1 true;
        Grp 1 (Rep dot 1 false); Lit (txt "%")].
(* Temperature Sensor (\d+):\s+(\d+)\s+Celsius *)
Definition re_sensor : re :=
  cats [Lit (txt "Temperature Sensor "); Grp 1 (Rep isdigit 1 true);
        Lit (txt ":"); Rep isspace 1 true; Grp 2 (Rep isdigit 1 true);
        Rep isspace 1 true; Lit (txt "Celsius")].
(* <label>\s+([\d,]+)\s+\[(.+?)\] *)
Definition data_units (label : string) : re :=
  cats [Lit (txt label); Rep isspace 1 true;
        Grp 1 (Rep digit_or_comma 1 true); Rep isspace 1 true; Lit (txt "[");
        Grp 2 (Rep dot 1 false); Lit (txt "]")].
(* Data Units Read:\s+([\d,]+)\s+\[(.+?)\] *)
Definition re_data_read : re := data_units "Data Units Read:".
(* Data Units Written:\s+([\d,]+)\s+\[(.+?)\] *)
Definition re_data_written : re := data_units "Data Units Written:".
(* Run status group 0.*?READ:\s+bw=(\d+)MiB/s.*?io=(.+?)\(   with re.DOTALL *)
Definition re_read_perf : re :=
  cats [Lit (txt "Run status group 0"); Rep any 0 false; Lit (txt "READ:");
        Rep isspace 1 true; Lit (txt "bw="); Grp 1 (Rep isdigit 1 true);
        Lit (txt "MiB/s"); Rep any 0 false; Lit (txt "io=");
        Grp 2 (Rep any 1 false); Lit (txt "(")].
(* <op>: IOPS=([\d.]+[kM]?), *)
Definition iops_of (op : string) : re :=
  cats [Lit (txt op); Lit (txt ": IOPS=");
        Grp 1 (Cat (Rep digit_or_point 1 true) (Opt k_or_M)); Lit (txt ",")].
(* read: IOPS=([\d.]+[kM]?), *)
Definition re_read_iops : re := iops_of "read".
(* write: IOPS=([\d.]+[kM]?), *)
Definition re_write_iops : re := iops_of "write".
(* Run status group <n>.*?WRITE:\s+bw=(\d+)MiB/s   with re.DOTALL *)
Definition write_perf (n : string) : re :=
  cats [Lit (txt "Run status group "); Lit (txt n); Rep any 0 false;
        Lit (txt "WRITE:"); Rep isspace 1 true; Lit (txt "bw=");
        Grp 1 (Rep isdigit 1 true); Lit (txt "MiB/s")].
Definition re_write_perf : re := write_perf "0".
Definition re_checkpoint : re := write_perf "1".
(* ai_model_checkpoint.*?write: IOPS=(\d+)   with re.DOTALL *)
Definition re_checkpoint_iops : re :=
  cats [Lit (txt "ai_model_checkpoint"); Rep any 0 false;
        Lit (txt "write: IOPS="); Grp 1 (Rep isdigit 1 true)].
(* Error Information Log Entries:\s+(\d+) *)
Definition re_errors : re :=
  cats [Lit (txt "Error Information Log Entries:"); Rep isspace 1 true;
        Grp 1 (Rep isdigit 1 true)].

Definition after_test : text := txt "after test".
Definition MiB_s : text := txt " MiB/s".

(** [if m: self.data[key] = f(m)] *)
Definition assign {A B : Type} (m : option A) (f : A -> B)
  (set : B -> drive_data -> drive_data) (d : drive_data) : drive_data :=
  match m with
  | Some x => set (f x) d
  | None => d
  end.

(** The block guarded by [len(after_test_sections) > 1]. *)
Definition parse_after (after_section : text) (d : drive_data) : drive_data :=
  let d := assign (search re_temperature after_section)
                  (group 1) set_temp_after d in
  let temp_sensors := findall re_sensor after_section in
  let d := set_temp_sensors_after
             (map (fun m => (txt "Sensor " ++ group 1 m, group 2 m))
                  temp_sensors) d in
  let d := assign (search re_data_read after_section)
                  (fun m => strip (group 2 m)) set_data_read d in
  let d := assign (search re_data_written after_section)
                  (fun m => strip (group 2 m)) set_data_written d in
  d.

(** [int(error_entries_match.group(1))] when the pattern matches.  A
    [ValueError] there would be caught by the handler of [parse]; it is the
    last statement of the block, so the record is returned as it is. *)
Definition error_entries (content : text) : option Z :=
  match search re_errors content with
  | Some m => py_int (group 1 m)
  | None => None
  end.

(** The body of the [try] block of [parse] once the file has been read. *)
Definition parse_content (content : text) (d : drive_data) : drive_data :=
  let d := assign (search re_model content)
                  (fun m => strip (group 1 m)) set_model d in
  let d := assign (search re_serial content)
                  (fun m => strip (group 1 m)) set_serial d in
  let d := assign (search re_firmware content)
                  (fun m => strip (group 1 m)) set_firmware d in
  let d := assign (search re_capacity content)
                  (fun m => strip (group 1 m)) set_capacity d in
  let d := assign (search re_nvme_version content)
                  (fun m => strip (group 1 m)) set_nvme_version d in
  let d := assign (search re_health content)
                  (fun m => strip (group 1 m)) set_health_status d in
  let d := assign (search re_temperature content)
                  (group 1) set_temp_before d in
  let d := assign (search re_percentage content)
                  (fun m => strip (group 1 m)) set_percentage_used d in
  let after_test_sections := str_split after_test content in
  let d := if 1 <? length after_test_sections
           then parse_after (last after_test_sections []) d
           else d in
  let d := assign (search re_read_perf content)
                  (fun m => group 1 m ++ MiB_s) set_read_bw d in
  let d := assign (search re_read_iops content)
                  (group 1) set_read_iops d in
  let d := assign (search re_write_perf content)
                  (fun m => group 1 m ++ MiB_s) set_write_bw d in
  let d := assign (search re_write_iops content)
                  (group 1) set_write_iops d in
  let d := assign (search re_checkpoint content)
                  (fun m => group 1 m ++ MiB_s) set_checkpoint_write_bw d in
  let d := assign (search re_checkpoint_iops content)
                  (group 1) set_checkpoint_write_iops d in
  let d := assign (error_entries content) (fun n => n) set_errors d in
  d.

(** [parse] on the parser's current [self.data].  [file] is the outcome of
    opening and reading the log: [None] when that raises, which the handler
    catches, so that [self.data] is returned as it stands. *)
Definition parse_into (file : option text) (d : drive_data) : drive_data :=
  match file with
  | Some content => parse_content content d
  | None => d
  end.

(** [NVMeLogParser(log_file).parse()] *)
Definition parse (name : text) (file : option text) : drive_data :=
  parse_into file (init_data name).

(** ** generate_report.py: get_pcie_info *)

(** The chain that sets [pcie_gen] from the link speed. *)
Definition pcie_gen (speed : text) : text :=
  if contains (txt "32.0 GT/s") speed || contains (txt "32 GT/s") speed
  then txt "PCIe 5.0"
  else if contains (txt "16.0 GT/s") speed || contains (txt "16 GT/s") speed
  then txt "PCIe 4.0"
  else if contains (txt "8.0 GT/s") speed || contains (txt "8 GT/s") speed
  then txt "PCIe 3.0"
  else Unknown.

(** [speed_query] and [width_query] are the outcomes of the two
    [subprocess.check_output(...).decode()] calls: [None] when the call
    raises, which the bare [except] turns into the pair of "Unknown". *)
Definition get_pcie_info (speed_query width_query : option text)
  : text * text :=
  match speed_query with
  | Some out_speed =>
      let speed := strip out_speed in
      match width_query with
      | Some out_width =>
          let width := strip out_width in
          (pcie_gen speed ++ txt " x" ++ width, speed)
      | None => (Unknown, Unknown)
      end
  | None => (Unknown, Unknown)
  end.

(** ** Ordering of the cards *)

(** [a < b] on strings: lexicographic on the character codes. *)
Fixpoint text_ltb (a b : text) : bool :=
  match a, b with
  | _, [] => false
  | [], _ :: _ => true
  | x :: a', y :: b' =>
      (N_of_ascii x <? N_of_ascii y)%N
      || ((N_of_ascii x =? N_of_ascii y)%N && text_ltb a' b')
  end.

(** [sorted(drives_data, key=lambda x: x['drive_name'])].  Python's sort is
    stable; so is this insertion, where an element stays before the later
    elements of equal name. *)
Fixpoint insert_by_name (x : drive_data) (l : list drive_data)
  : list drive_data :=
  match l with
  | [] => [x]
  | y :: l' =>
      if text_ltb (drive_name y) (drive_name x)
      then y :: insert_by_name x l'
      else x :: l
  end.

Definition sorted_by_name (l : list drive_data) : list drive_data :=
  fold_right insert_by_name [] l.

(** [s.upper()] on the ASCII letters; drive names are stems of log file
    names that start with nvme. *)
Definition upper_char (c : ascii) : ascii :=
  let n := N_of_ascii c in
  if ((97 <=? n) && (n <=? 122))%N then ascii_of_N (n - 32) else c.

Definition upper (s : text) : text := map upper_char s.

(** ** generate_report.py: generate_html_report *)

(** The values interpolated into one drive card, in the order of the
    template. *)
Record card : Type := Build_card {
  c_title : text;
  c_status_class : text;
  c_status_text : text;
  c_model : text;
  c_serial : text;
  c_capacity : text;
  c_firmware : text;
  c_nvme_version : text;
  c_health_status : text;
  c_percentage_used : text;
  c_errors : Z;
  c_read_bw : text;
  c_read_iops : text;
  c_write_bw : text;
  c_write_iops : text;
  c_data_read : text;
  c_data_written : text;
  c_temp_before : text;
  c_temp_after : text;
  c_sensors : list (text * text)
}.

Definition status_class (drive : drive_data) : text :=
  if text_eqb (health_status drive) (txt "PASSED") && (errors drive =? 0)%Z
  then txt "status-passed" else txt "status-failed".

(** The check mark U+2713 of the template, as its UTF-8 bytes. *)
Definition check_mark : text := map ascii_of_nat [226; 156; 147].

Definition status_text (drive : drive_data) : text :=
  if text_eqb (health_status drive) (txt "PASSED") && (errors drive =? 0)%Z
  then txt "PASSED " ++ check_mark else txt "CHECK".

Definition drive_card (drive : drive_data) : card :=
  {| c_title := upper (drive_name drive);
     c_status_class := status_class drive;
     c_status_text := status_text drive;
     c_model := model drive;
     c_serial := serial drive;
     c_capacity := capacity drive;
     c_firmware := firmware drive;
     c_nvme_version := nvme_version drive;
     c_health_status := health_status drive;
     c_percentage_used := percentage_used drive;
     c_errors := errors drive;
     c_read_bw := read_bw drive;
     c_read_iops := read_iops drive;
     c_write_bw := write_bw drive;
     c_write_iops := write_iops drive;
     c_data_read := data_read drive;
     c_data_written := data_written drive;
     c_temp_before := temp_before drive;
     c_temp_after := temp_after drive;
     c_sensors := temp_sensors_after drive |}.

(** The values interpolated into the whole document. *)
Record report : Type := Build_report {
  r_total_count : nat;
  r_passed_count : nat;
  r_pcie_info : text;
  r_pcie_speed : text;
  r_cards : list card;
  r_current_time : text
}.

(** [sum(1 for d in drives_data if d['health_status'] == 'PASSED' and
    d['errors'] == 0)] *)
Definition passed_count (drives_data : list drive_data) : nat :=
  list_sum
    (map (fun _ => 1)
       (filter (fun d => text_eqb (health_status d) (txt "PASSED")
                         && (errors d =? 0)%Z) drives_data)).

(** [now] is [datetime.now().strftime(...)]. *)
Definition generate_html_report (drives_data : list drive_data)
  (speed_query width_query : option text) (now : text) : report :=
  let total_count := length drives_data in
  let pcie := get_pcie_info speed_query width_query in
  {| r_total_count := total_count;
     r_passed_count := passed_count drives_data;
     r_pcie_info := fst pcie;
     r_pcie_speed := snd pcie;
     r_cards := map drive_card (sorted_by_name drives_data);
     r_current_time := now |}.

(** ** update_report_with_peak_perf.py: parse_fio_json *)

(** Python floats: a finite float is [m * 2^e]. *)
Inductive pyfloat : Type :=
| FNan
| FInf (negative : bool)
| FFin (m e : Z).

(** The value that [json.load] returns. *)
#[warnings="-register-all"]
Inductive json : Type :=
| JNull
| JBool (b : bool)
| JInt (z : Z)
| JFloat (f : pyfloat)
| JStr (s : text)
| JArr (l : list json)
| JObj (items : list (text * json)).

(** Results of operations that may raise. *)
Inductive res (A : Type) : Type :=
| Ret (a : A)
| Raise.
Arguments Ret {A} a.
Arguments Raise {A}.

Definition bind {A B : Type} (x : res A) (f : A -> res B) : res B :=
  match x with
  | Ret a => f a
  | Raise => Raise
  end.

Notation "x <- e ;; k" := (bind e (fun x => k))
  (at level 61, e at next level, right associativity).

Fixpoint lookup (key : text) (items : list (text * json)) : option json :=
  match items with
  | [] => None
  | (k, v) :: items' => if text_eqb k key then Some v else lookup key items'
  end.

Definition is_str (key : text) (v : json) : bool :=
  match v with
  | JStr s => text_eqb s key
  | _ => false
  end.

(** [key in v] for a string [key]. *)
Definition py_in (key : text) (v : json) : res bool :=
  match v with
  | JObj items => Ret (match lookup key items with Some _ => true | None => false end)
  | JArr l => Ret (existsb (is_str key) l)
  | JStr s => Ret (contains key s)
  | _ => Raise
  end.

(** [v[key]] for a string [key]. *)
Definition py_getitem (v : json) (key : text) : res json :=
  match v with
  | JObj items => match lookup key items with Some x => Ret x | None => Raise end
  | _ => Raise
  end.

(** [len(v)] *)
Definition py_len (v : json) : res nat :=
  match v with
  | JObj items => Ret (length items)
  | JArr l => Ret (length l)
  | JStr s => Ret (length s)
  | _ => Raise
  end.

(** [v[0]] *)
Definition py_first (v : json) : res json :=
  match v with
  | JArr (x :: _) => Ret x
  | JStr (c :: _) => Ret (JStr [c])
  | _ => Raise
  end.

(** [v > 0] *)
Definition py_gt0 (v : json) : res bool :=
  match v with
  | JInt z => Ret (0 <? z)%Z
  | JBool b => Ret b
  | JFloat (FFin m _) => Ret (0 <? m)%Z
  | JFloat (FInf negative) => Ret (negb negative)
  | JFloat FNan => Ret false
  | _ => Raise
  end.

(** The float nearest to a positive integer, ties to even, as an integer. *)
Definition float_round (n : Z) : Z :=
  let sh := (Z.log2 n - 52)%Z in
  if (sh <=? 0)%Z then n
  else
    let q := Z.shiftr n sh in
    let r := (n - Z.shiftl q sh)%Z in
    let half := Z.shiftl 1 (sh - 1) in
    let q' := if (r <? half)%Z then q
              else if (half <? r)%Z then (q + 1)%Z
              else if Z.even q then q else (q + 1)%Z in
    Z.shiftl q' sh.

(** [int(v / 1024)]: the quotient is a float, exact for a float operand and
    correctly rounded for an integer one ([OverflowError] beyond the range of
    floats); [int] truncates it. *)
Definition int_div_1024 (v : json) : res Z :=
  match v with
  | JInt z =>
      let n := float_round (Z.abs z) in
      if (2 ^ 1034 <=? n)%Z then Raise
      else Ret (Z.sgn z * (n / 1024))%Z
  | JBool _ => Ret 0%Z
  | JFloat (FFin m e) =>
      if (10 <=? e)%Z then Ret (m * 2 ^ (e - 10))%Z
      else Ret (Z.quot m (2 ^ (10 - e)))
  | _ => Raise
  end.

Definition bw : text := txt "bw".

(** [key in job and 'bw' in job[key] and job[key]['bw'] > 0] *)
Definition has_bw (key : text) (job : json) : res bool :=
  has_key <- py_in key job ;;
  if has_key : bool then
    section <- py_getitem job key ;;
    has <- py_in bw section ;;
    if has : bool then
      bw_kbs <- py_getitem section bw ;;
      py_gt0 bw_kbs
    else Ret false
  else Ret false.

(** [bw_kbs = job[key]['bw']; return int(bw_kbs / 1024)] *)
Definition bw_to_mib (key : text) (job : json) : res (option Z) :=
  section <- py_getitem job key ;;
  bw_kbs <- py_getitem section bw ;;
  mib <- int_div_1024 bw_kbs ;;
  Ret (Some mib).

(** The body of the [try] block once [json.load] has returned [data]. *)
Definition parse_fio_json_data (data : json) : res (option Z) :=
  has_jobs <- py_in (txt "jobs") data ;;
  nonempty <- (if has_jobs : bool
               then jobs <- py_getitem data (txt "jobs") ;;
                    n <- py_len jobs ;;
                    Ret (0 <? n)
               else Ret false) ;;
  if nonempty : bool then
    jobs <- py_getitem data (txt "jobs") ;;
    job <- py_first jobs ;;
    reads <- has_bw (txt "read") job ;;
    if reads : bool then bw_to_mib (txt "read") job
    else
      writes <- has_bw (txt "write") job ;;
      if writes : bool then bw_to_mib (txt "write") job
      else Ret None
  else Ret None.

(** [file] is the outcome of opening the artifact and [json.load]: [None]
    when that raises.  Every exception ends in [return None]. *)
Definition parse_fio_json (file : option json) : option Z :=
  match file with
  | Some data =>
      match parse_fio_json_data data with
      | Ret v => v
      | Raise => None
      end
  | None => None
  end.

(** ** update_report_with_peak_perf.py: main, the merge of the peak values *)

(** [if peak: data[key] = f"{peak} MiB/s"], where [peak] is falsy when it
    is [None] or 0. *)
Definition merge_one (artifact : option (option json))
  (set : text -> drive_data -> drive_data) (data : drive_data) : drive_data :=
  match artifact with
  | Some file =>
      match parse_fio_json file with
      | Some peak =>
          if (peak =? 0)%Z then data else set (show_int peak ++ MiB_s) data
      | None => data
      end
  | None => data
  end.

(** [read_json] and [write_json] are [None] when the artifact does not
    exist. *)
Definition merge_peak (read_json write_json : option (option json))
  (data : drive_data) : drive_data :=
  let data := merge_one read_json set_peak_read_bw data in
  let data := merge_one write_json set_peak_write_bw data in
  data.

(** ** update_report_with_peak_perf.py: generate_html_report_with_peak *)

Definition NA : text := txt "N/A".

(** [d.get(key, default)] for the optional keys. *)
Definition get_or (default : text) (field : option text) : text :=
  match field with
  | Some v => v
  | None => default
  end.

Record peak_card : Type := Build_peak_card {
  pc_card : card;
  pc_model_title : text;
  pc_peak_read : text;
  pc_peak_write : text
}.

Definition model_display (drive : drive_data) : text :=
  if 30 <? length (model drive)
  then firstn 27 (model drive) ++ txt "..."
  else model drive.

Definition drive_peak_card (drive : drive_data) : peak_card :=
  let c := drive_card drive in
  {| pc_card :=
       Build_card (c_title c) (c_status_class c) (c_status_text c)
         (model_display drive) (c_serial c) (c_capacity c) (c_firmware c)
         (c_nvme_version c) (c_health_status c) (c_percentage_used c)
         (c_errors c) (c_read_bw c) (c_read_iops c) (c_write_bw c)
         (c_write_iops c) (c_data_read c) (c_data_written c)
         (c_temp_before c) (c_temp_after c) (c_sensors c);
     pc_model_title := model drive;
     pc_peak_read := get_or NA (peak_read_bw drive);
     pc_peak_write := get_or NA (peak_write_bw drive) |}.

(** [d.get(key, 'N/A') != 'N/A'] *)
Definition has_peak (field : drive_data -> option text) (d : drive_data)
  : bool :=
  negb (text_eqb (get_or NA (field d)) NA).

(** [int(d.get(key, '0').split()[0])]; [None] when it raises. *)
Definition leading_int (field : drive_data -> option text) (d : drive_data)
  : option Z :=
  match first_token (get_or (txt "0") (field d)) with
  | Some t => py_int t
  | None => None
  end.

(** [sum(int(...) for d in drives_data if d.get(key, 'N/A') != 'N/A')] *)
Fixpoint sum_peak (field : drive_data -> option text)
  (drives_data : list drive_data) : option Z :=
  match drives_data with
  | [] => Some 0%Z
  | d :: rest =>
      if has_peak field d
      then match leading_int field d with
           | Some n => option_map (Z.add n) (sum_peak field rest)
           | None => None
           end
      else sum_peak field rest
  end.

(** [max(sum(1 for d in drives_data if d.get(key, 'N/A') != 'N/A'), 1)] *)
Definition count_peak (field : drive_data -> option text)
  (drives_data : list drive_data) : nat :=
  Nat.max (list_sum (map (fun _ => 1) (filter (has_peak field) drives_data))) 1.

(** The quotient of the two, kept as the exact rational that Python rounds
    to a float. *)
Definition avg_peak (field : drive_data -> option text)
  (drives_data : list drive_data) : option Q :=
  match sum_peak field drives_data with
  | Some total => Some (total # Pos.of_nat (count_peak field drives_data))%Q
  | None => None
  end.

Record peak_report : Type := Build_peak_report {
  p_total_count : nat;
  p_passed_count : nat;
  p_pcie_info : text;
  p_pcie_speed : text;
  p_cards : list peak_card;
  p_avg_peak_read : Q;
  p_avg_peak_write : Q;
  p_current_time : text
}.

(** [None] when the computation of an average raises: nothing is written. *)
Definition generate_html_report_with_peak (drives_data : list drive_data)
  (speed_query width_query : option text) (now : text) : option peak_report :=
  let passed :=
    list_sum
      (map (fun _ => 1)
         (filter (fun d => text_eqb (health_status d) (txt "PASSED")
                           && (errors d =? 0)%Z) drives_data)) in
  let total_count := length drives_data in
  let pcie := get_pcie_info speed_query width_query in
  let cards := map drive_peak_card (sorted_by_name drives_data) in
  match avg_peak peak_read_bw drives_data with
  | Some avg_peak_read =>
      match avg_peak peak_write_bw drives_data with
      | Some avg_peak_write =>
          Some {| p_total_count := total_count;
                  p_passed_count := passed;
                  p_pcie_info := fst pcie;
                  p_pcie_speed := snd pcie;
                  p_cards := cards;
                  p_avg_peak_read := avg_peak_read;
                  p_avg_peak_write := avg_peak_write;
                  p_current_time := now |}
      | None => None
      end
  | None => None
  end.

(** One log of the directory with its artifacts: the stem of the file name,
    the outcome of reading it, and the two optional JSON artifacts. *)
Record log_entry : Type := Build_log_entry {
  log_stem : text;
  log_file : option text;
  read_json : option (option json);
  write_json : option (option json)
}.

(** The loop of [main] in update_report_with_peak_perf.py. *)
Definition peak_drives_data (log_files : list log_entry) : list drive_data :=
  map (fun l => merge_peak (read_json l) (write_json l)
                  (parse (log_stem l) (log_file l))) log_files.

(** [main] of update_report_with_peak_perf.py: no report without logs. *)
Definition main_peak (log_files : list log_entry)
  (speed_query width_query : option text) (now : text) : option peak_report :=
  match log_files with
  | [] => None
  | _ => generate_html_report_with_peak (peak_drives_data log_files)
           speed_query width_query now
  end.

(** [main] of generate_report.py. *)
Definition main (log_files : list log_entry)
  (speed_query width_query : option text) (now : text) : option report :=
  match log_files with
  | [] => None
  | _ => Some (generate_html_report
                 (map (fun l => parse (log_stem l) (log_file l)) log_files)
                 speed_query width_query now)
  end.

(** ** Vocabulary of the properties *)

(** [name_le a b]: the name of [a] is not after the name of [b]. *)
Definition name_le (a b : drive_data) : Prop :=
  text_ltb (drive_name b) (drive_name a) = false.

(** [a <= b] on names. *)
Definition text_le (a b : text) : Prop := text_ltb b a = false.

(** The text after the last marker, when there is a marker. *)
Definition after_section (content : text) : option text :=
  let sections := str_split after_test content in
  if 1 <? length sections then Some (last sections []) else None.

(** The card carries the class of a passed drive. *)
Definition passed_badge (c : card) : bool :=
  text_eqb (c_status_class c) (txt "status-passed").

(** Health status PASSED and no error entry. *)
Definition passes (d : drive_data) : bool :=
  text_eqb (health_status d) (txt "PASSED") && (errors d =? 0)%Z.

(** A drive record with a given name, health status and error count. *)
Definition sample_drive (name health : string) (errs : Z) : drive_data :=
  set_errors errs
    (set_health_status (txt health) (init_data (txt name))).

(** [sub in s] for a literal [sub]. *)
Definition has (sub : string) (s : text) : bool := contains (txt sub) s.

(** Keys of the fio artifact. *)
Definition jobs : text := txt "jobs".

Definition read : text := txt "read".

Definition write : text := txt "write".

(** The artifact with the jobs [js], and the job whose key [key] holds the
    bandwidth [v]. *)
Definition fio_artifact (js : list json) : json := JObj [(jobs, JArr js)].

Definition job_of (key : text) (v : json) : json :=
  JObj [(key, JObj [(bw, v)])].

(** What [parse_fio_json] returns for an outcome of its [try] block. *)
Definition result_of (r : res (option Z)) : option Z :=
  match r with
  | Ret v => v
  | Raise => None
  end.

(** The artifact with one job that reads at 2048000 KB/s. *)
Definition example_artifact : json :=
  fio_artifact [job_of read (JInt 2048000)].

(** The test on the read key is false, so the [elif] on the write key is
    evaluated. *)
Definition write_consulted (job : json) : Prop :=
  has_bw read job = Ret false.

(** The job has no read key. *)
Definition read_absent (job : json) : Prop :=
  py_in read job = Ret false.

(** The value of the read key has no [bw]. *)
Definition read_lacks_bw (job : json) : Prop :=
  exists section,
    py_getitem job read = Ret section /\ py_in bw section = Ret false.

(** [v == 0] *)
Definition py_eq0 (v : json) : bool :=
  match v with
  | JInt z => (z =? 0)%Z
  | JBool b => negb b
  | JFloat (FFin m _) => (m =? 0)%Z
  | _ => false
  end.

(** The [bw] of the read key equals 0. *)
Definition read_bw_zero (job : json) : Prop :=
  exists section v,
    py_getitem job read = Ret section /\ py_getitem section bw = Ret v /\
    py_eq0 v = true.

(** The [bw] of the read key is not greater than 0. *)
Definition read_bw_not_positive (job : json) : Prop :=
  exists section v,
    py_getitem job read = Ret section /\ py_getitem section bw = Ret v /\
    py_gt0 v = Ret false.

(** A job with a negative read bandwidth and a positive write bandwidth. *)
Definition negative_read_job : json :=
  JObj [(read, JObj [(bw, JInt (-1))]); (write, JObj [(bw, JInt 2048)])].

(** The arithmetic mean, with the count clamped to at least 1. *)
Definition mean (xs : list Z) : Q :=
  (fold_right Z.add 0%Z xs # Pos.of_nat (Nat.max (length xs) 1))%Q.

(** A drive record with a peak read value. *)
Definition with_peak_read (name value : string) : drive_data :=
  set_peak_read_bw (txt value) (init_data (txt name)).

(** The report with another time stamp. *)
Definition set_current_time (t : text) (r : report) : report :=
  Build_report (r_total_count r) (r_passed_count r) (r_pcie_info r)
    (r_pcie_speed r) (r_cards r) t.

(** The peak report with another time stamp. *)
Definition set_peak_current_time (t : text) (r : peak_report) : peak_report :=
  Build_peak_report (p_total_count r) (p_passed_count r) (p_pcie_info r)
    (p_pcie_speed r) (p_cards r) (p_avg_peak_read r) (p_avg_peak_write r) t.

(** The literal parts of the temperature pattern. *)
Definition Temperature_lit : text := txt "Temperature:".

Definition Celsius_lit : text := txt "Celsius".

(** [m] is a text that the temperature pattern matches in full, with the
    digits [g] as its group. *)
Definition temperature_match (m g : text) : Prop :=
  exists ws ws',
    m = Temperature_lit ++ ws ++ g ++ ws' ++ Celsius_lit /\
    forallb isspace ws = true /\ 1 <= length ws /\
    forallb isdigit g = true /\ 1 <= length g /\
    forallb isspace ws' = true /\ 1 <= length ws'.

(** The group of a match is determined by the text where it starts. *)
Definition temperature_value (s : text) : text :=
  takewhile isdigit (dropwhile isspace (skipn (length Temperature_lit) s)).

(** No proper suffix of [sep] is a prefix of [sep]: occurrences of [sep]
    cannot overlap. *)
Definition borderless (sep : text) : Prop :=
  forall p l, sep = p ++ l -> p <> [] -> l <> [] -> prefixb l sep = false.

(** The sensor list built from a post-test section. *)
Definition sensor_pairs (section : text) : list (text * text) :=
  map (fun m => (txt "Sensor " ++ group 1 m, group 2 m))
    (findall re_sensor section).

(** A text with a temperature on each side of the marker. *)
Definition two_blocks : text :=
  txt "Temperature: 40 Celsius ... after test ... Temperature: 55 Celsius".

(** ** Vocabulary of the further properties *)

Unset Implicit Arguments.

(** Every group of [r] holds a text that [good] accepts. *)
Fixpoint groups_in (good : nat -> text -> Prop) (r : re) : Prop :=
  match r with
  | Grp n r1 =>
      (forall s cs cs' s',
         In (cs', s') (run r1 s cs) ->
         good n (firstn (length s - length s') s)) /\
      groups_in good r1
  | Cat r1 r2 => groups_in good r1 /\ groups_in good r2
  | _ => True
  end.

(** [r] records group [n] in every match. *)
Fixpoint defines (n : nat) (r : re) : bool :=
  match r with
  | Grp m r1 => Nat.eqb m n || defines n r1
  | Cat r1 r2 => defines n r1 || defines n r2
  | _ => false
  end.

(** A non-empty text of characters of class [p]. *)
Definition run_of (p : ascii -> bool) (v : text) : Prop :=
  v <> [] /\ forallb p v = true.

(** The optional magnitude suffix of an IOPS value. *)
Definition iops_text (v : text) : Prop :=
  exists u o,
    v = u ++ o /\ run_of digit_or_point u /\
    (o = [] \/ o = txt "k" \/ o = txt "M").

(** A bandwidth as the parser formats it: digits, then " MiB/s". *)
Definition bandwidth_text (v : text) : Prop :=
  exists n, run_of isdigit n /\ v = n ++ MiB_s.

(** One sensor entry: the label "Sensor <digits>" and the digits read. *)
Definition sensor_entry (p : text * text) : Prop :=
  exists num, fst p = txt "Sensor " ++ num /\ run_of isdigit num /\
              run_of isdigit (snd p).

(** A field that has its default or a value of the given shape. *)
Definition unknown_or (shape : text -> Prop) (v : text) : Prop :=
  v = txt "Unknown" \/ shape v.

(** Group 1 of the patterns whose first group is a run of digits. *)
Definition first_is_digits (n : nat) (v : text) : Prop :=
  n = 1 -> run_of isdigit v.

(** Neither the first nor the last character is white space. *)
Definition no_outer_space (v : text) : Prop :=
  (forall c r, v = c :: r -> isspace c = false) /\
  (forall i c, v = i ++ [c] -> isspace c = false).

(** A text without line feed whose first and last characters are not
    white space. *)
Definition trimmed_line (v : text) : Prop :=
  no_outer_space v /\ forallb dot v = true.

(** A group that holds no line feed, whatever its number. *)
Definition one_line (n : nat) (v : text) : Prop := forallb dot v = true.

(** The drives named [k], in their order in [l]. *)
Definition named (k : text) (l : list drive_data) : list drive_data :=
  filter (fun d => text_eqb (drive_name d) k) l.

(** The characters of a decimal number. *)
Definition uint_chars (d : Decimal.uint) : text :=
  list_ascii_of_string (NilEmpty.string_of_uint d).

(** A digit or the minus sign, never white space. *)
Definition sign_or_digit (c : ascii) : bool := isdigit c || Ascii.eqb c "-".

(** The peak values that [main] merges from one kind of artifact, in the
    order of the logs. *)
Definition peaks_of (artifact : log_entry -> option (option json))
  (log_files : list log_entry) : list Z :=
  flat_map (fun l =>
              match artifact l with
              | Some file =>
                  match parse_fio_json file with
                  | Some n => if (n =? 0)%Z then [] else [n]
                  | None => []
                  end
              | None => []
              end) log_files.

(** A peak value with which the average raises. *)
Definition unreadable_peak (field : drive_data -> option text)
  (d : drive_data) : Prop :=
  has_peak field d = true /\ leading_int field d = None.

(** A peak value whose first token has at most 300 characters.  The sum of
    such values divided by their number lies within the floats and no
    token reaches the 4300 digits that [int] refuses; the quotient of the
    model is exact and [py_int] has no limit, so that the model follows
    Python on these values. *)
Definition short_peak (field : drive_data -> option text)
  (d : drive_data) : Prop :=
  forall t, has_peak field d = true ->
            first_token (get_or (txt "0") (field d)) = Some t ->
            length t <= 300.

Set Implicit Arguments.

(** * Properties *)

(** ** Text equality and order *)

Lemma text_eqb_eq (a b : text) : text_eqb a b = true <-> a = b.
Proof.
  revert b; induction a as [|x a IH]; intros [|y b]; simpl;
    try (split; [discriminate | congruence]); try tauto.
  rewrite andb_true_iff, Ascii.eqb_eq, IH.
  split; [intros [-> ->]; reflexivity | intros [= -> ->]; auto].
Qed.

Lemma text_eqb_refl (a : text) : text_eqb a a = true.
Proof. apply text_eqb_eq; reflexivity. Qed.

Lemma N_of_ascii_inj (x y : ascii) : N_of_ascii x = N_of_ascii y -> x = y.
Proof.
  intros H. rewrite <- (ascii_N_embedding x), <- (ascii_N_embedding y).
  now rewrite H.
Qed.

Lemma text_ltb_irrefl (a : text) : text_ltb a a = false.
Proof.
  induction a as [|x a IH]; simpl; [reflexivity|].
  rewrite N.ltb_irrefl, N.eqb_refl, IH. reflexivity.
Qed.

Lemma text_ltb_asym (a b : text) :
  text_ltb a b = true -> text_ltb b a = false.
Proof.
  revert b; induction a as [|x a IH]; intros [|y b]; simpl; try congruence.
  destruct (N.ltb_spec (N_of_ascii x) (N_of_ascii y)),
           (N.ltb_spec (N_of_ascii y) (N_of_ascii x)),
           (N.eqb_spec (N_of_ascii x) (N_of_ascii y)),
           (N.eqb_spec (N_of_ascii y) (N_of_ascii x)); simpl;
    try lia; try congruence; auto.
Qed.

Lemma text_le_antisym (a b : text) :
  text_ltb a b = false -> text_ltb b a = false -> a = b.
Proof.
  revert b; induction a as [|x a IH]; intros [|y b]; simpl; try congruence.
  destruct (N.ltb_spec (N_of_ascii x) (N_of_ascii y)),
           (N.ltb_spec (N_of_ascii y) (N_of_ascii x)),
           (N.eqb_spec (N_of_ascii x) (N_of_ascii y)),
           (N.eqb_spec (N_of_ascii y) (N_of_ascii x)); simpl;
    try lia; try congruence.
  intros Hab Hba. f_equal; [apply N_of_ascii_inj; assumption | auto].
Qed.

Lemma text_le_trans (a b c : text) :
  text_ltb b a = false -> text_ltb c b = false -> text_ltb c a = false.
Proof.
  revert b c; induction a as [|x a IH]; intros [|y b] [|z c]; simpl;
    try congruence.
  destruct (N.ltb_spec (N_of_ascii y) (N_of_ascii x)),
           (N.ltb_spec (N_of_ascii z) (N_of_ascii y)),
           (N.ltb_spec (N_of_ascii z) (N_of_ascii x)),
           (N.eqb_spec (N_of_ascii y) (N_of_ascii x)),
           (N.eqb_spec (N_of_ascii z) (N_of_ascii y)),
           (N.eqb_spec (N_of_ascii z) (N_of_ascii x)); simpl;
    try lia; try congruence.
  apply IH.
Qed.

(** ** The order of the cards *)

Lemma insert_by_name_perm (x : drive_data) (l : list drive_data) :
  Permutation (insert_by_name x l) (x :: l).
Proof.
  induction l as [|y l IH]; simpl; [reflexivity|].
  destruct (text_ltb (drive_name y) (drive_name x)); [|reflexivity].
  rewrite IH. apply perm_swap.
Qed.

Lemma sorted_by_name_perm (l : list drive_data) :
  Permutation (sorted_by_name l) l.
Proof.
  induction l as [|x l IH]; simpl; [reflexivity|].
  rewrite insert_by_name_perm. now constructor.
Qed.

Lemma insert_by_name_sorted (x : drive_data) (l : list drive_data) :
  StronglySorted name_le l -> StronglySorted name_le (insert_by_name x l).
Proof.
  induction 1 as [|y l Hs IH Hy]; simpl.
  - repeat constructor.
  - destruct (text_ltb (drive_name y) (drive_name x)) eqn:E.
    + constructor; [assumption|].
      apply Forall_forall. intros z Hz.
      apply (Permutation_in _ (insert_by_name_perm x l)) in Hz.
      destruct Hz as [<- | Hz].
      * apply text_ltb_asym; assumption.
      * rewrite Forall_forall in Hy. auto.
    + constructor; [constructor; assumption|].
      constructor; [exact E|].
      eapply Forall_impl; [|exact Hy].
      intros z Hz. unfold name_le in *.
      eapply text_le_trans; eassumption.
Qed.

Lemma sorted_by_name_sorted (l : list drive_data) :
  StronglySorted name_le (sorted_by_name l).
Proof.
  induction l as [|x l IH]; simpl; [constructor|].
  apply insert_by_name_sorted; assumption.
Qed.

Lemma names_sorted (l : list drive_data) :
  StronglySorted name_le l -> StronglySorted text_le (map drive_name l).
Proof.
  induction 1 as [|y l Hs IH Hy]; simpl; constructor; [assumption|].
  apply Forall_map. exact Hy.
Qed.

Lemma sorted_perm_unique (l1 l2 : list text) :
  StronglySorted text_le l1 -> StronglySorted text_le l2 ->
  Permutation l1 l2 -> l1 = l2.
Proof.
  intros H1; revert l2.
  induction H1 as [|a l1 Hs1 IH Ha]; intros l2 H2 HP.
  - apply Permutation_nil in HP. congruence.
  - destruct H2 as [|b l2 Hs2 Hb].
    + apply Permutation_sym, Permutation_nil in HP. discriminate.
    + assert (a = b) as ->.
      { assert (In a (b :: l2)) as Ia
          by (eapply Permutation_in; [exact HP | left; reflexivity]).
        assert (In b (a :: l1)) as Ib
          by (eapply Permutation_in;
              [apply Permutation_sym; exact HP | left; reflexivity]).
        destruct Ia as [->|Ia]; [reflexivity|].
        destruct Ib as [->|Ib]; [reflexivity|].
        rewrite Forall_forall in Ha, Hb.
        apply text_le_antisym; [apply Hb | apply Ha]; assumption. }
      f_equal. apply IH; [assumption|].
      eapply Permutation_cons_inv; exact HP.
Qed.

Lemma sorted_names_invariant (ds ds' : list drive_data) :
  Permutation ds ds' ->
  map drive_name (sorted_by_name ds) = map drive_name (sorted_by_name ds').
Proof.
  intros HP. apply sorted_perm_unique.
  - apply names_sorted, sorted_by_name_sorted.
  - apply names_sorted, sorted_by_name_sorted.
  - apply Permutation_map.
    rewrite !sorted_by_name_perm. exact HP.
Qed.

(** ** The fields of a parsed record *)

Lemma proj_assign_other {A B C : Type} (p : drive_data -> C) (m : option A)
  (f : A -> B) (set : B -> drive_data -> drive_data) (d : drive_data) :
  (forall v d', p (set v d') = p d') -> p (assign m f set d) = p d.
Proof. intros H. destruct m; simpl; auto. Qed.

Lemma proj_assign_hit {A B : Type} (p : drive_data -> B) (m : option A)
  (f : A -> B) (set : B -> drive_data -> drive_data) (d : drive_data) :
  (forall v d', p (set v d') = v) ->
  p (assign m f set d) = match m with Some x => f x | None => p d end.
Proof. intros H. destruct m; simpl; auto. Qed.

Lemma proj_if_other {C : Type} (p : drive_data -> C) (b : bool)
  (g : drive_data -> drive_data) (d : drive_data) :
  (forall d', p (g d') = p d') -> p (if b then g d else d) = p d.
Proof. intros H. destruct b; auto. Qed.

Ltac setter := let v := fresh in let d := fresh in
  intros v d; destruct d; reflexivity.

Lemma parse_after_other {C : Type} (p : drive_data -> C) :
  (forall v d, p (set_temp_after v d) = p d) ->
  (forall v d, p (set_temp_sensors_after v d) = p d) ->
  (forall v d, p (set_data_read v d) = p d) ->
  (forall v d, p (set_data_written v d) = p d) ->
  forall a d, p (parse_after a d) = p d.
Proof.
  intros H1 H2 H3 H4 a d. unfold parse_after; cbv zeta.
  rewrite (proj_assign_other p _ _ _ _ H4).
  rewrite (proj_assign_other p _ _ _ _ H3).
  rewrite H2.
  rewrite (proj_assign_other p _ _ _ _ H1).
  reflexivity.
Qed.

Ltac peel :=
  repeat first
    [ rewrite proj_assign_other by setter
    | rewrite proj_if_other
        by (intros; apply parse_after_other; setter) ].

Ltac field_of_parse :=
  intros; unfold parse_content; cbv zeta; peel;
  first [ reflexivity
        | rewrite proj_assign_hit by setter; peel; reflexivity ].

Lemma parse_drive_name c d : drive_name (parse_content c d) = drive_name d.
Proof. field_of_parse. Qed.

Lemma parse_model c d :
  model (parse_content c d) =
  match search re_model c with
  | Some m => strip (group 1 m) | None => model d end.
Proof. field_of_parse. Qed.

Lemma parse_serial c d :
  serial (parse_content c d) =
  match search re_serial c with
  | Some m => strip (group 1 m) | None => serial d end.
Proof. field_of_parse. Qed.

Lemma parse_firmware c d :
  firmware (parse_content c d) =
  match search re_firmware c with
  | Some m => strip (group 1 m) | None => firmware d end.
Proof. field_of_parse. Qed.

Lemma parse_capacity c d :
  capacity (parse_content c d) =
  match search re_capacity c with
  | Some m => strip (group 1 m) | None => capacity d end.
Proof. field_of_parse. Qed.

Lemma parse_nvme_version c d :
  nvme_version (parse_content c d) =
  match search re_nvme_version c with
  | Some m => strip (group 1 m) | None => nvme_version d end.
Proof. field_of_parse. Qed.

Lemma parse_pci_gen c d : pci_gen (parse_content c d) = pci_gen d.
Proof. field_of_parse. Qed.

Lemma parse_health_status c d :
  health_status (parse_content c d) =
  match search re_health c with
  | Some m => strip (group 1 m) | None => health_status d end.
Proof. field_of_parse. Qed.

Lemma parse_temp_before c d :
  temp_before (parse_content c d) =
  match search re_temperature c with
  | Some m => group 1 m | None => temp_before d end.
Proof. field_of_parse. Qed.

Lemma parse_percentage_used c d :
  percentage_used (parse_content c d) =
  match search re_percentage c with
  | Some m => strip (group 1 m) | None => percentage_used d end.
Proof. field_of_parse. Qed.

Lemma parse_read_bw c d :
  read_bw (parse_content c d) =
  match search re_read_perf c with
  | Some m => group 1 m ++ MiB_s | None => read_bw d end.
Proof. field_of_parse. Qed.

Lemma parse_read_iops c d :
  read_iops (parse_content c d) =
  match search re_read_iops c with
  | Some m => group 1 m | None => read_iops d end.
Proof. field_of_parse. Qed.

Lemma parse_write_bw c d :
  write_bw (parse_content c d) =
  match search re_write_perf c with
  | Some m => group 1 m ++ MiB_s | None => write_bw d end.
Proof. field_of_parse. Qed.

Lemma parse_write_iops c d :
  write_iops (parse_content c d) =
  match search re_write_iops c with
  | Some m => group 1 m | None => write_iops d end.
Proof. field_of_parse. Qed.

Lemma parse_checkpoint_write_bw c d :
  checkpoint_write_bw (parse_content c d) =
  match search re_checkpoint c with
  | Some m => group 1 m ++ MiB_s | None => checkpoint_write_bw d end.
Proof. field_of_parse. Qed.

Lemma parse_checkpoint_write_iops c d :
  checkpoint_write_iops (parse_content c d) =
  match search re_checkpoint_iops c with
  | Some m => group 1 m | None => checkpoint_write_iops d end.
Proof. field_of_parse. Qed.

Lemma parse_errors c d :
  errors (parse_content c d) =
  match error_entries c with Some n => n | None => errors d end.
Proof. field_of_parse. Qed.

Lemma parse_test_duration c d :
  test_duration (parse_content c d) = test_duration d.
Proof. field_of_parse. Qed.

Lemma parse_workload c d : workload (parse_content c d) = workload d.
Proof. field_of_parse. Qed.

Lemma parse_peak_read_bw c d :
  peak_read_bw (parse_content c d) = peak_read_bw d.
Proof. field_of_parse. Qed.

Lemma parse_peak_write_bw c d :
  peak_write_bw (parse_content c d) = peak_write_bw d.
Proof. field_of_parse. Qed.

Lemma temp_after_sensors v d :
  temp_after (set_temp_sensors_after v d) = temp_after d.
Proof. destruct d; reflexivity. Qed.

Lemma data_read_sensors v d :
  data_read (set_temp_sensors_after v d) = data_read d.
Proof. destruct d; reflexivity. Qed.

Lemma data_written_sensors v d :
  data_written (set_temp_sensors_after v d) = data_written d.
Proof. destruct d; reflexivity. Qed.

Ltac peel_after :=
  repeat first
    [ rewrite proj_assign_other by setter
    | rewrite temp_after_sensors
    | rewrite data_read_sensors
    | rewrite data_written_sensors ].

Ltac field_of_after :=
  intros; unfold parse_content, after_section; cbv zeta; peel;
  match goal with
  | |- context [if ?b then _ else _] => destruct b
  end;
  [ unfold parse_after; cbv zeta;
    peel_after; rewrite proj_assign_hit by setter; peel_after;
    peel; reflexivity
  | peel; reflexivity ].

Lemma parse_temp_after c d :
  temp_after (parse_content c d) =
  match after_section c with
  | Some a => match search re_temperature a with
              | Some m => group 1 m | None => temp_after d end
  | None => temp_after d
  end.
Proof. field_of_after. Qed.

Lemma parse_data_read c d :
  data_read (parse_content c d) =
  match after_section c with
  | Some a => match search re_data_read a with
              | Some m => strip (group 2 m) | None => data_read d end
  | None => data_read d
  end.
Proof. field_of_after. Qed.

Lemma parse_data_written c d :
  data_written (parse_content c d) =
  match after_section c with
  | Some a => match search re_data_written a with
              | Some m => strip (group 2 m) | None => data_written d end
  | None => data_written d
  end.
Proof. field_of_after. Qed.

Lemma sensors_set v d : temp_sensors_after (set_temp_sensors_after v d) = v.
Proof. destruct d; reflexivity. Qed.

Lemma parse_temp_sensors_after c d :
  temp_sensors_after (parse_content c d) =
  match after_section c with
  | Some a => map (fun m => (txt "Sensor " ++ group 1 m, group 2 m))
                (findall re_sensor a)
  | None => temp_sensors_after d
  end.
Proof.
  intros; unfold parse_content, after_section; cbv zeta; peel.
  match goal with
  | |- context [if ?b then _ else _] => destruct b
  end; [| peel; reflexivity].
  unfold parse_after; cbv zeta.
  repeat rewrite proj_assign_other by setter.
  apply sensors_set.
Qed.

Lemma drive_data_ext (x y : drive_data) :
  drive_name x = drive_name y -> model x = model y -> serial x = serial y ->
  firmware x = firmware y -> capacity x = capacity y ->
  nvme_version x = nvme_version y -> pci_gen x = pci_gen y ->
  health_status x = health_status y -> temp_before x = temp_before y ->
  temp_after x = temp_after y ->
  temp_sensors_after x = temp_sensors_after y ->
  percentage_used x = percentage_used y -> data_read x = data_read y ->
  data_written x = data_written y -> read_iops x = read_iops y ->
  read_bw x = read_bw y -> write_iops x = write_iops y ->
  write_bw x = write_bw y ->
  checkpoint_write_iops x = checkpoint_write_iops y ->
  checkpoint_write_bw x = checkpoint_write_bw y -> errors x = errors y ->
  test_duration x = test_duration y -> workload x = workload y ->
  peak_read_bw x = peak_read_bw y -> peak_write_bw x = peak_write_bw y ->
  x = y.
Proof. destruct x, y; simpl; intros; subst; reflexivity. Qed.

Create Rewrite HintDb parse_fields.
#[local] Hint Rewrite parse_drive_name parse_model parse_serial parse_firmware
  parse_capacity parse_nvme_version parse_pci_gen parse_health_status
  parse_temp_before parse_percentage_used parse_read_bw parse_read_iops
  parse_write_bw parse_write_iops parse_checkpoint_write_bw
  parse_checkpoint_write_iops parse_errors parse_test_duration parse_workload
  parse_peak_read_bw parse_peak_write_bw parse_temp_after parse_data_read
  parse_data_written parse_temp_sensors_after : parse_fields.

Lemma parse_content_idempotent c d :
  parse_content c (parse_content c d) = parse_content c d.
Proof.
  apply drive_data_ext; autorewrite with parse_fields;
    repeat match goal with
           | |- context [match ?o with Some _ => _ | None => _ end] =>
               destruct o
           end; reflexivity.
Qed.

(** ** Pass predicate *)

Lemma list_sum_ones {A : Type} (l : list A) :
  list_sum (map (fun _ => 1) l) = length l.
Proof. induction l; simpl; congruence. Qed.

Lemma filter_length_perm {A : Type} (f : A -> bool) (l l' : list A) :
  Permutation l l' -> length (filter f l) = length (filter f l').
Proof.
  induction 1 as [|x l l' _ IH|x y l|l l' l'' _ IH1 _ IH2]; simpl.
  - reflexivity.
  - destruct (f x); simpl; congruence.
  - destruct (f x), (f y); reflexivity.
  - congruence.
Qed.

Lemma filter_map_length {A B : Type} (g : A -> B) (f : B -> bool)
  (l : list A) :
  length (filter f (map g l)) = length (filter (fun x => f (g x)) l).
Proof.
  induction l as [|x l IH]; simpl; [reflexivity|].
  destruct (f (g x)); simpl; congruence.
Qed.

Lemma status_class_badge (d : drive_data) :
  text_eqb (status_class d) (txt "status-passed") = passes d.
Proof.
  unfold status_class, passes.
  destruct (text_eqb (health_status d) (txt "PASSED") && (errors d =? 0)%Z);
    reflexivity.
Qed.

Lemma status_class_iff (d : drive_data) :
  status_class d = txt "status-passed" <->
  health_status d = txt "PASSED" /\ errors d = 0%Z.
Proof.
  rewrite <- text_eqb_eq, status_class_badge. unfold passes.
  rewrite andb_true_iff, text_eqb_eq, Z.eqb_eq. reflexivity.
Qed.

Lemma badges_of_cards (ds : list drive_data) :
  length (filter passed_badge (map drive_card (sorted_by_name ds))) =
  length (filter passes ds).
Proof.
  rewrite filter_map_length.
  rewrite (filter_length_perm _ (sorted_by_name_perm ds)).
  f_equal. apply filter_ext. intros d. apply status_class_badge.
Qed.

Lemma badges_of_peak_cards (ds : list drive_data) :
  length (filter (fun c => passed_badge (pc_card c))
            (map drive_peak_card (sorted_by_name ds))) =
  length (filter passes ds).
Proof.
  rewrite filter_map_length.
  rewrite (filter_length_perm _ (sorted_by_name_perm ds)).
  f_equal. apply filter_ext. intros d. apply status_class_badge.
Qed.

Lemma peak_report_fields ds sq wq now r :
  generate_html_report_with_peak ds sq wq now = Some r ->
  p_total_count r = length ds /\
  p_passed_count r = length (filter passes ds) /\
  p_pcie_info r = fst (get_pcie_info sq wq) /\
  p_pcie_speed r = snd (get_pcie_info sq wq) /\
  p_cards r = map drive_peak_card (sorted_by_name ds) /\
  avg_peak peak_read_bw ds = Some (p_avg_peak_read r) /\
  avg_peak peak_write_bw ds = Some (p_avg_peak_write r) /\
  p_current_time r = now.
Proof.
  unfold generate_html_report_with_peak; cbv zeta.
  destruct (avg_peak peak_read_bw ds); [|discriminate].
  destruct (avg_peak peak_write_bw ds); [|discriminate].
  intros [= <-]; simpl. rewrite list_sum_ones. repeat split; reflexivity.
Qed.

(** C2.  A card carries the class status-passed exactly when the drive's
    health status is PASSED and its error count is 0; the passed count of the
    summary is the number of drives with that property and the number of
    cards with that class, in the plain report and in the peak report. *)
Theorem pass_predicate_consistent (ds : list drive_data)
  (sq wq : option text) (now : text) :
  (forall d,
     (c_status_class (drive_card d) = txt "status-passed" <->
      health_status d = txt "PASSED" /\ errors d = 0%Z) /\
     (c_status_class (drive_card d) = txt "status-passed" \/
      c_status_class (drive_card d) = txt "status-failed") /\
     c_status_class (pc_card (drive_peak_card d)) =
     c_status_class (drive_card d)) /\
  (let r := generate_html_report ds sq wq now in
   r_passed_count r = length (filter passes ds) /\
   r_passed_count r = length (filter passed_badge (r_cards r))) /\
  (forall r, generate_html_report_with_peak ds sq wq now = Some r ->
     p_passed_count r = length (filter passes ds) /\
     p_passed_count r =
     length (filter (fun c => passed_badge (pc_card c)) (p_cards r))).
Proof.
  split; [|split].
  - intros d. split; [apply status_class_iff|]. split; [|reflexivity].
    simpl. unfold status_class.
    destruct (text_eqb (health_status d) (txt "PASSED") && (errors d =? 0)%Z);
      auto.
  - simpl. unfold passed_count. rewrite list_sum_ones, badges_of_cards.
    split; reflexivity.
  - intros r Hr. apply peak_report_fields in Hr.
    destruct Hr as (_ & Hp & _ & _ & Hc & _). rewrite Hp, Hc.
    rewrite badges_of_peak_cards. split; reflexivity.
Qed.

Lemma pass_predicate_consistent_witness :
  let ds := [sample_drive "nvme1n1" "PASSED" 0;
             sample_drive "nvme0n1" "PASSED" 2;
             sample_drive "nvme2n1" "FAILED" 0] in
  exists r, generate_html_report_with_peak ds None None (txt "t") = Some r /\
            p_passed_count r = 1 /\
            length (filter (fun c => passed_badge (pc_card c)) (p_cards r)) = 1.
Proof.
  intros ds.
  destruct (generate_html_report_with_peak ds None None (txt "t"))
    as [r|] eqn:E; [|vm_compute in E; discriminate].
  exists r. split; [reflexivity|].
  destruct (pass_predicate_consistent ds None None (txt "t")) as (_ & _ & H).
  destruct (H r E) as [H1 H2]. rewrite <- H2, H1. split; reflexivity.
Defined.

(** ** Order of the cards *)

(** C7.  The cards are those of the drives in ascending order of drive name,
    whatever the order of the input: a permutation of the input yields the
    same sequence of names and of card titles, in the plain report and in the
    peak report. *)
Theorem cards_in_name_order (ds ds' : list drive_data)
  (sq wq : option text) (now : text) :
  Permutation ds ds' ->
  let l := sorted_by_name ds in
  StronglySorted name_le l /\ Permutation l ds /\
  r_cards (generate_html_report ds sq wq now) = map drive_card l /\
  map drive_name (sorted_by_name ds') = map drive_name l /\
  map c_title (r_cards (generate_html_report ds' sq wq now)) =
  map c_title (r_cards (generate_html_report ds sq wq now)) /\
  (forall r r',
     generate_html_report_with_peak ds sq wq now = Some r ->
     generate_html_report_with_peak ds' sq wq now = Some r' ->
     p_cards r = map drive_peak_card l /\
     map (fun c => c_title (pc_card c)) (p_cards r') =
     map (fun c => c_title (pc_card c)) (p_cards r)).
Proof.
  intros HP l.
  pose proof (sorted_names_invariant HP) as Hn.
  split; [apply sorted_by_name_sorted|].
  split; [apply sorted_by_name_perm|].
  split; [reflexivity|].
  split; [symmetry; exact Hn|].
  split.
  - simpl. rewrite !map_map. simpl.
    rewrite <- !(map_map drive_name upper). now rewrite Hn.
  - intros r r' Hr Hr'.
    apply peak_report_fields in Hr, Hr'.
    destruct Hr as (_ & _ & _ & _ & Hc & _).
    destruct Hr' as (_ & _ & _ & _ & Hc' & _).
    rewrite Hc, Hc'. split; [reflexivity|].
    rewrite !map_map. simpl.
    rewrite <- !(map_map drive_name upper). now rewrite Hn.
Qed.

Lemma cards_in_name_order_witness :
  let a := sample_drive "nvme0n1" "PASSED" 0 in
  let b := sample_drive "nvme1n1" "PASSED" 0 in
  Permutation [b; a] [a; b] /\
  r_cards (generate_html_report [b; a] None None (txt "t")) =
  [drive_card a; drive_card b].
Proof.
  intros a b.
  assert (HP : Permutation [b; a] [a; b]) by apply perm_swap.
  split; [exact HP|].
  destruct (cards_in_name_order None None (txt "t") HP)
    as (_ & _ & H & _).
  rewrite H. vm_compute. reflexivity.
Defined.

(** ** Link descriptor *)

(** C8.  The link speed maps to one label by the first case that applies:
    PCIe 5.0 for 32.0 GT/s or 32 GT/s, PCIe 4.0 for 16.0 GT/s or 16 GT/s,
    PCIe 3.0 for 8.0 GT/s or 8 GT/s, Unknown otherwise; the label is joined
    with the lane width and returned with the speed, and a query that raises
    yields the pair of Unknown. *)
Theorem link_descriptor_mapping (speed out_speed out_width : text)
  (wq : option text) :
  ((has "32.0 GT/s" speed || has "32 GT/s" speed = true /\
    pcie_gen speed = txt "PCIe 5.0") \/
   (has "32.0 GT/s" speed || has "32 GT/s" speed = false /\
    has "16.0 GT/s" speed || has "16 GT/s" speed = true /\
    pcie_gen speed = txt "PCIe 4.0") \/
   (has "32.0 GT/s" speed || has "32 GT/s" speed = false /\
    has "16.0 GT/s" speed || has "16 GT/s" speed = false /\
    has "8.0 GT/s" speed || has "8 GT/s" speed = true /\
    pcie_gen speed = txt "PCIe 3.0") \/
   (has "32.0 GT/s" speed || has "32 GT/s" speed = false /\
    has "16.0 GT/s" speed || has "16 GT/s" speed = false /\
    has "8.0 GT/s" speed || has "8 GT/s" speed = false /\
    pcie_gen speed = txt "Unknown")) /\
  pcie_gen (txt "16.0 GT/s") = txt "PCIe 4.0" /\
  pcie_gen (txt "2.5 GT/s") = txt "Unknown" /\
  get_pcie_info (Some out_speed) (Some out_width) =
  (pcie_gen (strip out_speed) ++ txt " x" ++ strip out_width,
   strip out_speed) /\
  get_pcie_info None wq = (txt "Unknown", txt "Unknown") /\
  get_pcie_info (Some out_speed) None = (txt "Unknown", txt "Unknown").
Proof.
  split; [|repeat split; reflexivity].
  unfold pcie_gen, has.
  destruct (contains (txt "32.0 GT/s") speed || contains (txt "32 GT/s") speed);
    [left; split; reflexivity|].
  destruct (contains (txt "16.0 GT/s") speed || contains (txt "16 GT/s") speed);
    [right; left; repeat split; reflexivity|].
  destruct (contains (txt "8.0 GT/s") speed || contains (txt "8 GT/s") speed);
    [right; right; left; repeat split; reflexivity|].
  right; right; right; repeat split; reflexivity.
Qed.

(** ** Peak artifacts *)

Lemma py_in_obj key items v :
  lookup key items = Some v -> py_in key (JObj items) = Ret true.
Proof. intros H. simpl. rewrite H. reflexivity. Qed.

Lemma py_getitem_obj key items v :
  lookup key items = Some v -> py_getitem (JObj items) key = Ret v.
Proof. intros H. simpl. rewrite H. reflexivity. Qed.

Lemma parse_fio_json_first_job items job rest :
  lookup jobs items = Some (JArr (job :: rest)) ->
  parse_fio_json (Some (JObj items)) =
  match has_bw read job with
  | Ret true => result_of (bw_to_mib read job)
  | Ret false =>
      match has_bw write job with
      | Ret true => result_of (bw_to_mib write job)
      | _ => None
      end
  | Raise => None
  end.
Proof.
  intros H. unfold parse_fio_json, parse_fio_json_data.
  change (txt "jobs") with jobs.
  rewrite (py_in_obj _ _ H), (py_getitem_obj _ _ H).
  unfold bind at 1 2 3 4 5 6. unfold py_len, py_first.
  change (0 <? length (job :: rest)) with true. cbv iota.
  change (txt "read") with read. change (txt "write") with write.
  destruct (has_bw read job) as [[|]|]; simpl; try reflexivity.
  destruct (has_bw write job) as [[|]|]; simpl; reflexivity.
Qed.

Lemma float_round_exact (z : Z) :
  (0 < z < 2 ^ 53)%Z -> float_round z = z.
Proof.
  intros [Hp Hlt]. unfold float_round.
  apply Z.log2_lt_pow2 in Hlt; [|assumption].
  destruct (Z.leb_spec (Z.log2 z - 52) 0); [reflexivity | lia].
Qed.

Lemma int_div_1024_exact (z : Z) :
  (0 < z < 2 ^ 53)%Z -> int_div_1024 (JInt z) = Ret (z / 1024)%Z.
Proof.
  intros H. unfold int_div_1024.
  rewrite Z.abs_eq by lia. rewrite float_round_exact by assumption.
  assert (2 ^ 53 < 2 ^ 1034)%Z by (apply Z.pow_lt_mono_r; lia).
  destruct (Z.leb_spec (2 ^ 1034) z); [lia|].
  rewrite Z.sgn_pos by lia. f_equal. lia.
Qed.

Lemma parse_fio_json_job_of (key : text) (z : Z) :
  key = read \/ key = write ->
  (0 < z < 2 ^ 53)%Z ->
  parse_fio_json (Some (fio_artifact [job_of key (JInt z)])) =
  Some (z / 1024)%Z.
Proof.
  intros Hk Hz. unfold fio_artifact.
  rewrite (@parse_fio_json_first_job _ (job_of key (JInt z)) [])
    by reflexivity.
  assert (Hgt : (0 <? z)%Z = true) by (apply Z.ltb_lt; lia).
  destruct Hk as [-> | ->]; unfold has_bw, bw_to_mib, job_of;
    cbn -[int_div_1024 Z.ltb]; rewrite Hgt; cbn -[int_div_1024];
    rewrite int_div_1024_exact by assumption; reflexivity.
Qed.

Lemma peak_read_bw_set v d : peak_read_bw (set_peak_read_bw v d) = Some v.
Proof. destruct d; reflexivity. Qed.

Lemma peak_read_bw_set_write v d :
  peak_read_bw (set_peak_write_bw v d) = peak_read_bw d.
Proof. destruct d; reflexivity. Qed.

Lemma peak_read_bw_merge_write a d :
  peak_read_bw (merge_one a set_peak_write_bw d) = peak_read_bw d.
Proof.
  unfold merge_one. destruct a as [f|]; [|reflexivity].
  destruct (parse_fio_json f) as [p|]; [|reflexivity].
  destruct (p =? 0)%Z; [reflexivity | apply peak_read_bw_set_write].
Qed.

Lemma avg_peak_skip field d ds :
  has_peak field d = false ->
  avg_peak field (d :: ds) = avg_peak field ds.
Proof.
  intros H. unfold avg_peak, count_peak. simpl. rewrite H. reflexivity.
Qed.

Lemma has_peak_none field d : field d = None -> has_peak field d = false.
Proof. intros H. unfold has_peak. rewrite H. reflexivity. Qed.

(** C3.  For the artifact whose first job reads at 2048000 KB/s the parser
    returns 2000 and the merged field is 2000 MiB/s; only the first job is
    consulted; a bandwidth below 2^53 is divided by 1024 and truncated; a
    bandwidth of 0, a job without read and write keys and an unreadable
    artifact give no value, and then the field stays unset, is shown as N/A
    and is left out of the average. *)
Theorem peak_bandwidth_merge (items job_items : list (text * json))
  (job : json) (rest : list json) (z : Z) (d : drive_data)
  (file : option json) :
  lookup jobs items = Some (JArr (job :: rest)) ->
  (0 < z < 2 ^ 53)%Z ->
  lookup read job_items = None -> lookup write job_items = None ->
  peak_read_bw d = None ->
  parse_fio_json file = None ->
  parse_fio_json (Some example_artifact) = Some 2000%Z /\
  peak_read_bw (merge_peak (Some (Some example_artifact)) None d) =
    Some (txt "2000 MiB/s") /\
  parse_fio_json (Some (JObj items)) =
    parse_fio_json (Some (fio_artifact [job])) /\
  parse_fio_json (Some (fio_artifact [job_of read (JInt z)])) =
    Some (z / 1024)%Z /\
  parse_fio_json (Some (fio_artifact [job_of write (JInt z)])) =
    Some (z / 1024)%Z /\
  parse_fio_json (Some (fio_artifact [job_of read (JInt 0)])) = None /\
  parse_fio_json (Some (fio_artifact [job_of write (JInt 0)])) = None /\
  parse_fio_json (Some (fio_artifact [JObj job_items])) = None /\
  parse_fio_json None = None /\
  (let d' := merge_peak (Some file) None d in
   peak_read_bw d' = None /\
   pc_peak_read (drive_peak_card d') = txt "N/A" /\
   forall ds, avg_peak peak_read_bw (d' :: ds) = avg_peak peak_read_bw ds).
Proof.
  intros Hjobs Hz Hr Hw Hd Hfile.
  split; [reflexivity|].
  split.
  { unfold merge_peak; cbv zeta. rewrite peak_read_bw_merge_write.
    unfold merge_one.
    change (parse_fio_json (Some example_artifact)) with (Some 2000%Z).
    cbv beta iota. change ((2000 =? 0)%Z) with false. cbv iota.
    rewrite peak_read_bw_set. reflexivity. }
  split.
  { rewrite (parse_fio_json_first_job _ Hjobs).
    unfold fio_artifact.
    rewrite (@parse_fio_json_first_job _ job []) by reflexivity.
    reflexivity. }
  split; [apply parse_fio_json_job_of; auto|].
  split; [apply parse_fio_json_job_of; auto|].
  split; [reflexivity|].
  split; [reflexivity|].
  split.
  { unfold fio_artifact.
    rewrite (@parse_fio_json_first_job _ (JObj job_items) []) by reflexivity.
    unfold has_bw. simpl. rewrite Hr, Hw. reflexivity. }
  split; [reflexivity|].
  assert (Hd' : peak_read_bw (merge_peak (Some file) None d) = None).
  { unfold merge_peak; cbv zeta. rewrite peak_read_bw_merge_write.
    unfold merge_one. rewrite Hfile. exact Hd. }
  cbv zeta. split; [exact Hd'|]. split.
  - change (get_or NA (peak_read_bw (merge_peak (Some file) None d)) =
            txt "N/A").
    rewrite Hd'. reflexivity.
  - intros ds. apply avg_peak_skip, has_peak_none, Hd'.
Qed.

Lemma peak_bandwidth_merge_witness :
  parse_fio_json
    (Some (fio_artifact [job_of read (JInt 4096000); job_of read (JInt 1)])) =
  parse_fio_json (Some (fio_artifact [job_of read (JInt 4096000)])) /\
  parse_fio_json (Some (fio_artifact [job_of read (JInt 4096000)])) =
  Some 4000%Z.
Proof.
  assert (Hz : (0 < 4096000 < 2 ^ 53)%Z) by (vm_compute; split; reflexivity).
  destruct (@peak_bandwidth_merge
              [(jobs, JArr [job_of read (JInt 4096000); job_of read (JInt 1)])]
              [] (job_of read (JInt 4096000)) [job_of read (JInt 1)]
              4096000%Z (init_data (txt "nvme0n1")) None
              eq_refl Hz eq_refl eq_refl eq_refl eq_refl)
    as (_ & _ & H1 & H2 & _).
  split; [exact H1 | exact H2].
Defined.

(** ** Read before write *)

(** C10, as stated, fails: with a negative read bandwidth the write branch
    is consulted although the read key is present with a non-zero [bw]. *)
Lemma write_only_when_zero_counterexample :
  parse_fio_json (Some (fio_artifact [negative_read_job])) = Some 2%Z /\
  write_consulted negative_read_job /\
  ~ (read_absent negative_read_job \/ read_lacks_bw negative_read_job \/
     read_bw_zero negative_read_job).
Proof.
  split; [reflexivity|]. split; [reflexivity|].
  intros [H | [(s & H1 & H2) | (s & v & H1 & H2 & H3)]].
  - discriminate H.
  - injection H1 as <-. discriminate H2.
  - injection H1 as <-. injection H2 as <-. discriminate H3.
Qed.

Lemma lookup_in key items :
  py_in key (JObj items) = Ret true <-> exists v, lookup key items = Some v.
Proof.
  simpl. destruct (lookup key items) as [v|].
  - split; [eauto | reflexivity].
  - split; [discriminate | intros [v Hv]; discriminate].
Qed.

Lemma write_consulted_iff (job : json) :
  write_consulted job <->
  read_absent job \/ read_lacks_bw job \/ read_bw_not_positive job.
Proof.
  unfold write_consulted, read_absent, read_lacks_bw, read_bw_not_positive,
    has_bw.
  destruct (py_in read job) as [[|]|] eqn:Hin; simpl.
  - destruct (py_getitem job read) as [section|] eqn:Hget; simpl.
    + destruct (py_in bw section) as [[|]|] eqn:Hbw; simpl.
      * destruct (py_getitem section bw) as [v|] eqn:Hv; simpl.
        -- split.
           ++ intros H. right; right. exists section, v. auto.
           ++ intros [H | [(s & H1 & H2) | (s & v' & H1 & H2 & H3)]];
                try discriminate.
              ** injection H1 as <-. congruence.
              ** injection H1 as <-. congruence.
        -- split; [discriminate|].
           intros [H | [(s & H1 & H2) | (s & v' & H1 & H2 & H3)]];
             try discriminate.
           ++ injection H1 as <-. congruence.
           ++ injection H1 as <-. congruence.
      * split; [|reflexivity]. intros _. right; left. exists section. auto.
      * split; [discriminate|].
        intros [H | [(s & H1 & H2) | (s & v' & H1 & H2 & H3)]];
          try discriminate.
        ++ injection H1 as <-. congruence.
        ++ injection H1 as <-. destruct section; try discriminate.
    + split; [discriminate|].
      intros [H | [(s & H1 & H2) | (s & v' & H1 & H2 & H3)]]; discriminate.
  - split; auto.
  - split; [discriminate|].
    intros [H | [(s & H1 & H2) | (s & v' & H1 & H2 & H3)]];
      try discriminate; destruct job; discriminate.
Qed.

(** C10, amended.  The read key of the first job is examined before the
    write key: when its [bw] is positive the result is the converted read
    bandwidth whatever the write key holds; the write key is consulted
    exactly when the read key is absent, lacks [bw], or has a [bw] that is
    not greater than 0, and a raised exception gives no value. *)
Theorem read_before_write (items : list (text * json)) (job : json)
  (rest : list json) :
  lookup jobs items = Some (JArr (job :: rest)) ->
  (has_bw read job = Ret true ->
   parse_fio_json (Some (JObj items)) = result_of (bw_to_mib read job)) /\
  (write_consulted job <->
   read_absent job \/ read_lacks_bw job \/ read_bw_not_positive job) /\
  (write_consulted job ->
   parse_fio_json (Some (JObj items)) =
   match has_bw write job with
   | Ret true => result_of (bw_to_mib write job)
   | _ => None
   end) /\
  (has_bw read job = Raise -> parse_fio_json (Some (JObj items)) = None).
Proof.
  intros H. rewrite (parse_fio_json_first_job _ H).
  split; [intros ->; reflexivity|].
  split; [apply write_consulted_iff|].
  split; [unfold write_consulted; intros ->; reflexivity|].
  intros ->; reflexivity.
Qed.

Lemma read_before_write_witness :
  let job := JObj [(read, JObj [(bw, JInt 2048000)]);
                   (write, JObj [(bw, JInt 4096000)])] in
  parse_fio_json (Some (fio_artifact [job])) = Some 2000%Z.
Proof.
  intros job.
  destruct (@read_before_write [(jobs, JArr [job])] job [] eq_refl)
    as (H & _).
  unfold fio_artifact. rewrite H; reflexivity.
Defined.

(** ** Averages of the peak values *)

Lemma sum_peak_present field ds xs :
  map (leading_int field) (filter (has_peak field) ds) = map Some xs ->
  sum_peak field ds = Some (fold_right Z.add 0%Z xs) /\
  length (filter (has_peak field) ds) = length xs.
Proof.
  revert xs; induction ds as [|d ds IH]; intros xs H; simpl in *.
  - destruct xs; [split; reflexivity | discriminate].
  - destruct (has_peak field d); [|auto].
    destruct xs as [|x xs]; [discriminate|].
    simpl in H. injection H as Hx Hxs.
    destruct (IH _ Hxs) as [Hs Hl].
    rewrite Hx, Hs. simpl. split; congruence.
Qed.

(** C4.  The average is the mean of the leading integers of the peak values
    of the drives that have one, over the number of those drives (at least
    1); a drive without the field changes neither the sum nor the count.
    With 1000 and 3000 MiB/s on two of three drives the average is 2000. *)
Theorem average_exclusion (field : drive_data -> option text)
  (ds : list drive_data) (xs : list Z) (d : drive_data) :
  map (leading_int field) (filter (has_peak field) ds) = map Some xs ->
  field d = None ->
  avg_peak field ds = Some (mean xs) /\
  avg_peak field (d :: ds) = avg_peak field ds /\
  (forall sq wq now r,
     generate_html_report_with_peak ds sq wq now = Some r ->
     avg_peak peak_read_bw ds = Some (p_avg_peak_read r) /\
     avg_peak peak_write_bw ds = Some (p_avg_peak_write r)) /\
  (let three := [with_peak_read "nvme0n1" "1000 MiB/s";
                 init_data (txt "nvme1n1");
                 with_peak_read "nvme2n1" "3000 MiB/s"] in
   exists q, avg_peak peak_read_bw three = Some q /\ (q == 2000)%Q).
Proof.
  intros Hxs Hd. split; [|split; [|split]].
  - destruct (sum_peak_present _ _ _ Hxs) as [Hs Hl].
    unfold avg_peak, count_peak, mean.
    rewrite Hs, list_sum_ones, Hl. reflexivity.
  - apply avg_peak_skip, has_peak_none, Hd.
  - intros sq wq now r Hr. apply peak_report_fields in Hr. tauto.
  - eexists. split; [vm_compute; reflexivity | reflexivity].
Qed.

Lemma average_exclusion_witness :
  let ds := [with_peak_read "nvme0n1" "1000 MiB/s";
             with_peak_read "nvme2n1" "3000 MiB/s"] in
  avg_peak peak_read_bw ds = Some (mean [1000; 3000]%Z) /\
  avg_peak peak_read_bw (init_data (txt "nvme1n1") :: ds) =
  avg_peak peak_read_bw ds.
Proof.
  intros ds.
  destruct (@average_exclusion peak_read_bw ds [1000; 3000]%Z
              (init_data (txt "nvme1n1")) eq_refl eq_refl)
    as (H1 & H2 & _).
  split; [exact H1 | exact H2].
Defined.

(** ** Defaults *)

(** C5.  [parse] is total.  When the log cannot be read the record is the
    initial one; so it is for the empty text; and whatever the text, a field
    whose pattern finds no match, or a post-test field of a text without
    marker, has its default. *)
Theorem extraction_total (name content : text) :
  parse name None = init_data name /\
  parse name (Some []) = init_data name /\
  let d := parse name (Some content) in
  drive_name d = name /\
  (search re_model content = None -> model d = txt "Unknown") /\
  (search re_serial content = None -> serial d = txt "Unknown") /\
  (search re_firmware content = None -> firmware d = txt "Unknown") /\
  (search re_capacity content = None -> capacity d = txt "Unknown") /\
  (search re_nvme_version content = None ->
   nvme_version d = txt "Unknown") /\
  pci_gen d = txt "Unknown" /\
  (search re_health content = None -> health_status d = txt "Unknown") /\
  (search re_temperature content = None -> temp_before d = txt "Unknown") /\
  (search re_percentage content = None ->
   percentage_used d = txt "Unknown") /\
  (search re_read_perf content = None -> read_bw d = txt "Unknown") /\
  (search re_read_iops content = None -> read_iops d = txt "Unknown") /\
  (search re_write_perf content = None -> write_bw d = txt "Unknown") /\
  (search re_write_iops content = None -> write_iops d = txt "Unknown") /\
  (search re_checkpoint content = None ->
   checkpoint_write_bw d = txt "Unknown") /\
  (search re_checkpoint_iops content = None ->
   checkpoint_write_iops d = txt "Unknown") /\
  (search re_errors content = None -> errors d = 0%Z) /\
  test_duration d = txt "10 minutes" /\
  workload d = txt "AI Data Load & Model Checkpoint" /\
  peak_read_bw d = None /\ peak_write_bw d = None /\
  (after_section content = None ->
   temp_after d = txt "Unknown" /\ temp_sensors_after d = [] /\
   data_read d = txt "Unknown" /\ data_written d = txt "Unknown") /\
  (forall a, after_section content = Some a ->
     (search re_temperature a = None -> temp_after d = txt "Unknown") /\
     (findall re_sensor a = [] -> temp_sensors_after d = []) /\
     (search re_data_read a = None -> data_read d = txt "Unknown") /\
     (search re_data_written a = None -> data_written d = txt "Unknown")).
Proof.
  split; [reflexivity|]. split; [reflexivity|].
  unfold parse, parse_into; cbv zeta.
  autorewrite with parse_fields. unfold error_entries.
  repeat match goal with
         | |- _ /\ _ => split
         | |- _ = _ => reflexivity
         | |- search _ _ = None -> _ =>
             let H := fresh in intros H; rewrite H; reflexivity
         end.
  - intros Ha. rewrite Ha. repeat split; reflexivity.
  - intros a Ha. rewrite Ha.
    repeat match goal with
           | |- _ /\ _ => split
           | |- _ = _ -> _ =>
               let H := fresh in intros H; rewrite H; reflexivity
           end.
Qed.

Lemma extraction_total_witness :
  let d := parse (txt "nvme0n1") (Some (txt "fio: nothing to report")) in
  model d = txt "Unknown" /\ errors d = 0%Z /\ temp_sensors_after d = [] /\
  temp_after d = txt "Unknown".
Proof.
  intros d.
  destruct (extraction_total (txt "nvme0n1") (txt "fio: nothing to report"))
    as (_ & _ & _ & Hm & H).
  split; [apply Hm; reflexivity|].
  destruct H as (_ & _ & _ & _ & _ & _ & _ & _ & _ & _ & _ & _ & _ & _ & He & H).
  split; [apply He; reflexivity|].
  destruct H as (_ & _ & _ & _ & Ha & _).
  destruct (Ha eq_refl) as (Ht & Hs & _).
  split; [exact Hs | exact Ht].
Defined.

(** ** Idempotence *)

Lemma merge_one_idempotent a set d :
  (forall u v d', set u (set v d') = set u d') ->
  merge_one a set (merge_one a set d) = merge_one a set d.
Proof.
  intros Hset. unfold merge_one. destruct a as [f|]; [|reflexivity].
  destruct (parse_fio_json f) as [p|]; [|reflexivity].
  destruct (p =? 0)%Z; [reflexivity | apply Hset].
Qed.

Lemma merge_one_comm r w d :
  merge_one r set_peak_read_bw (merge_one w set_peak_write_bw d) =
  merge_one w set_peak_write_bw (merge_one r set_peak_read_bw d).
Proof.
  unfold merge_one. destruct r as [f|], w as [g|]; try reflexivity.
  destruct (parse_fio_json f) as [p|], (parse_fio_json g) as [q|];
    try reflexivity.
  destruct (p =? 0)%Z, (q =? 0)%Z; try reflexivity.
  destruct d; reflexivity.
Qed.

Lemma merge_peak_idempotent r w d :
  merge_peak r w (merge_peak r w d) = merge_peak r w d.
Proof.
  unfold merge_peak; cbv zeta.
  rewrite merge_one_comm.
  rewrite (@merge_one_idempotent w) by (intros u v []; reflexivity).
  rewrite (@merge_one_idempotent r) by (intros u v []; reflexivity).
  reflexivity.
Qed.

(** C6.  Parsing again into the record just parsed from the same file
    changes nothing, and neither does merging the same artifacts again; the
    reports made from the same records and host answers at two times differ
    in the time stamp only. *)
Theorem parse_and_render_idempotent (file : option text) (d : drive_data)
  (rj wj : option (option json)) (ds : list drive_data)
  (sq wq : option text) (t1 t2 : text) :
  parse_into file (parse_into file d) = parse_into file d /\
  merge_peak rj wj (merge_peak rj wj d) = merge_peak rj wj d /\
  generate_html_report ds sq wq t1 =
  set_current_time t1 (generate_html_report ds sq wq t2) /\
  generate_html_report_with_peak ds sq wq t1 =
  option_map (set_peak_current_time t1)
    (generate_html_report_with_peak ds sq wq t2).
Proof.
  split; [|split; [|split]].
  - destruct file as [c|]; simpl; [apply parse_content_idempotent|reflexivity].
  - apply merge_peak_idempotent.
  - reflexivity.
  - unfold generate_html_report_with_peak; cbv zeta.
    destruct (avg_peak peak_read_bw ds); [|reflexivity].
    destruct (avg_peak peak_write_bw ds); reflexivity.
Qed.

(** ** The matcher *)

Lemma prefixb_app (p r : text) : prefixb p (p ++ r) = true.
Proof.
  induction p as [|x p IH]; simpl; [reflexivity|].
  rewrite Ascii.eqb_refl. exact IH.
Qed.

Lemma prefixb_true (p s : text) :
  prefixb p s = true -> s = p ++ skipn (length p) s.
Proof.
  revert s; induction p as [|x p IH]; intros s H; simpl in *.
  - reflexivity.
  - destruct s as [|y s]; [discriminate|].
    apply andb_true_iff in H. destruct H as [Hxy Hp].
    apply Ascii.eqb_eq in Hxy. subst y. simpl. f_equal. auto.
Qed.

Lemma skipn_length_app (p r : text) : skipn (length p) (p ++ r) = r.
Proof. induction p; simpl; auto. Qed.

Lemma firstn_consumed (u s' : text) :
  firstn (length (u ++ s') - length s') (u ++ s') = u.
Proof.
  rewrite length_app, Nat.add_sub.
  induction u; simpl; [destruct s'; reflexivity | congruence].
Qed.

Lemma in_run_Lit l s cs cs' s' :
  In (cs', s') (run (Lit l) s cs) <-> s = l ++ s' /\ cs' = cs.
Proof.
  simpl. destruct (prefixb l s) eqn:E; simpl.
  - apply prefixb_true in E. split.
    + intros [[= <- <-] | []]. auto.
    + intros [Hs ->]. left. f_equal. clear E. subst s.
      apply skipn_length_app.
  - split; [tauto|]. intros [-> _]. rewrite prefixb_app in E. discriminate.
Qed.

Lemma in_skipn_reps p lo s s' :
  In s' (skipn lo (reps p s)) <->
  exists u, s = u ++ s' /\ forallb p u = true /\ lo <= length u.
Proof.
  revert lo; induction s as [|c s IH]; intros lo.
  - destruct lo as [|lo]; simpl.
    + split.
      * intros [<- | []]. exists []. auto.
      * intros (u & Hu & _). left.
        symmetry in Hu. apply app_eq_nil in Hu.
        destruct Hu as [_ ->]. reflexivity.
    + rewrite skipn_nil. split; [intros []|].
      intros (u & Hu & _ & Hl).
      symmetry in Hu. apply app_eq_nil in Hu. destruct Hu as [-> _].
      simpl in Hl. lia.
  - destruct lo as [|lo].
    + change (skipn 0 (reps p (c :: s)))
        with ((c :: s) :: (if p c then reps p s else [])).
      split.
      * intros [<- | H]; [exists []; simpl; auto with arith|].
        destruct (p c) eqn:Hc; [|destruct H].
        apply (IH 0) in H. destruct H as (u & -> & Hu & _).
        exists (c :: u). simpl. rewrite Hc, Hu. auto with arith.
      * intros (u & Hu & Hp & _). destruct u as [|x u]; simpl in *.
        -- left. congruence.
        -- right. injection Hu as <- ->.
           apply andb_true_iff in Hp. destruct Hp as [Hc Hp]. rewrite Hc.
           apply (IH 0). exists u. auto with arith.
    + change (skipn (S lo) (reps p (c :: s)))
        with (skipn lo (if p c then reps p s else [])).
      split.
      * destruct (p c) eqn:Hc; [|rewrite skipn_nil; intros []].
        intros H. apply IH in H. destruct H as (u & -> & Hu & Hl).
        exists (c :: u). simpl. rewrite Hc, Hu. auto with arith.
      * intros (u & Hu & Hp & Hl). destruct u as [|x u]; simpl in *; [lia|].
        injection Hu as <- ->.
        apply andb_true_iff in Hp. destruct Hp as [Hc Hp]. rewrite Hc.
        apply IH. exists u. auto with arith.
Qed.

Lemma in_run_Rep p lo g s cs cs' s' :
  In (cs', s') (run (Rep p lo g) s cs) <->
  cs' = cs /\
  exists u, s = u ++ s' /\ forallb p u = true /\ lo <= length u.
Proof.
  simpl. rewrite in_map_iff. split.
  - intros (x & [= <- <-] & H). split; [reflexivity|].
    apply in_skipn_reps. destruct g; [apply in_rev in H|]; exact H.
  - intros (-> & H). exists s'. split; [reflexivity|].
    apply in_skipn_reps in H. destruct g; [apply in_rev; rewrite rev_involutive|]; exact H.
Qed.

Lemma in_run_Cat r1 r2 s cs x :
  In x (run (Cat r1 r2) s cs) <->
  exists cs1 s1, In (cs1, s1) (run r1 s cs) /\ In x (run r2 s1 cs1).
Proof.
  simpl. rewrite in_flat_map. split.
  - intros ([cs1 s1] & H1 & H2). eauto.
  - intros (cs1 & s1 & H1 & H2). exists (cs1, s1). auto.
Qed.

Lemma in_run_Grp n r s cs cs' s' :
  In (cs', s') (run (Grp n r) s cs) <->
  exists cs1, In (cs1, s') (run r s cs) /\
              cs' = (n, firstn (length s - length s') s) :: cs1.
Proof.
  simpl. rewrite in_map_iff. split.
  - intros ([cs1 s1] & [= <- <-] & H). eauto.
  - intros (cs1 & H & ->). exists (cs1, s'). auto.
Qed.

Lemma search_skip r (u v : text) :
  (forall u1 u2, u = u1 ++ u2 -> u2 <> [] -> run r (u2 ++ v) [] = []) ->
  search r (u ++ v) = search r v.
Proof.
  induction u as [|c u IH]; intros H; [reflexivity|].
  simpl app. unfold search; fold search.
  change (c :: u ++ v) with ((c :: u) ++ v).
  rewrite (H [] (c :: u)) by (reflexivity || discriminate).
  apply IH. intros u1 u2 -> Hne. apply (H (c :: u1) u2); auto.
Qed.

Lemma search_None r (s : text) :
  search r s = None -> forall u v, s = u ++ v -> run r v [] = [].
Proof.
  induction s as [|c s IH]; unfold search; fold search; intros H u v Huv.
  - symmetry in Huv. apply app_eq_nil in Huv. destruct Huv as [_ ->].
    destruct (run r [] []) as [|[cs rest] tl]; [reflexivity|discriminate].
  - destruct (run r (c :: s) []) as [|[cs rest] tl] eqn:E; [|discriminate].
    destruct u as [|x u]; simpl in Huv.
    + subst v. exact E.
    + injection Huv as <- ->. eapply IH; eauto.
Qed.

Lemma search_Some r (s : text) a :
  search r s = Some a ->
  exists u v rest tl,
    s = u ++ v /\ run r v [] = (a, rest) :: tl /\
    forall u1 u2, u = u1 ++ u2 -> u2 <> [] -> run r (u2 ++ v) [] = [].
Proof.
  induction s as [|c s IH]; unfold search; fold search; intros H.
  - destruct (run r [] []) as [|[cs rest] tl] eqn:E; [discriminate|].
    injection H as ->. exists [], [], rest, tl. split; [reflexivity|].
    split; [exact E|]. intros u1 u2 Hu Hne.
    symmetry in Hu. apply app_eq_nil in Hu. tauto.
  - destruct (run r (c :: s) []) as [|[cs rest] tl] eqn:E.
    + destruct (IH H) as (u & v & rest & tl & -> & Hrun & Hearly).
      exists (c :: u), v, rest, tl. split; [reflexivity|].
      split; [exact Hrun|]. intros u1 u2 Hu Hne.
      destruct u1 as [|x u1]; simpl in Hu.
      * subst u2. exact E.
      * injection Hu as _ Hu. eapply Hearly; eauto.
    + injection H as ->. exists [], (c :: s), rest, tl.
      split; [reflexivity|]. split; [exact E|]. intros u1 u2 Hu Hne.
      symmetry in Hu. apply app_eq_nil in Hu. tauto.
Qed.

Lemma search_at r (v : text) a rest tl :
  run r v [] = (a, rest) :: tl -> search r v = Some a.
Proof. intros H. destruct v; unfold search; fold search; rewrite H; auto. Qed.

Lemma nonempty_in {A : Type} (l : list A) x :
  In x l -> exists y tl, l = y :: tl.
Proof. destruct l as [|y tl]; [intros []|eauto]. Qed.

(** ** Matches of the temperature pattern *)

Lemma run_temperature (s : text) cs rest :
  In (cs, rest) (run re_temperature s []) <->
  exists m g, s = m ++ rest /\ temperature_match m g /\ cs = [(1, g)].
Proof.
  unfold re_temperature, cats, fold_right.
  change (txt "Temperature:") with Temperature_lit.
  change (txt "Celsius") with Celsius_lit.
  split.
  - intros H.
    apply in_run_Cat in H. destruct H as (c1 & s1 & H1 & H).
    apply in_run_Lit in H1. destruct H1 as [-> ->].
    apply in_run_Cat in H. destruct H as (c2 & s2 & H2 & H).
    apply in_run_Rep in H2. destruct H2 as (-> & ws & -> & Hws & Lws).
    apply in_run_Cat in H. destruct H as (c3 & s3 & H3 & H).
    apply in_run_Grp in H3. destruct H3 as (c3' & H3 & ->).
    apply in_run_Rep in H3. destruct H3 as (-> & g & -> & Hg & Lg).
    rewrite firstn_consumed in H.
    apply in_run_Cat in H. destruct H as (c4 & s4 & H4 & H).
    apply in_run_Rep in H4. destruct H4 as (-> & ws' & -> & Hws' & Lws').
    apply in_run_Cat in H. destruct H as (c5 & s5 & H5 & H).
    apply in_run_Lit in H5. destruct H5 as [-> ->].
    apply in_run_Lit in H. destruct H as [Hr ->]. simpl in Hr. subst s5.
    exists (Temperature_lit ++ ws ++ g ++ ws' ++ Celsius_lit), g.
    split; [now rewrite <- !app_assoc|].
    split; [|reflexivity]. exists ws, ws'. auto 10.
  - intros (m & g & -> & (ws & ws' & -> & Hws & Lws & Hg & Lg & Hws' & Lws')
            & ->).
    rewrite <- !app_assoc.
    apply in_run_Cat. eexists _, _. split; [apply in_run_Lit; eauto|].
    apply in_run_Cat. eexists _, _.
    split; [apply in_run_Rep; split; [reflexivity|eauto]|].
    apply in_run_Cat. eexists _, _. split.
    { apply in_run_Grp. eexists. split; [|reflexivity].
      apply in_run_Rep; split; [reflexivity|]. exists g. eauto. }
    rewrite firstn_consumed.
    apply in_run_Cat. eexists _, _.
    split; [apply in_run_Rep; split; [reflexivity|eauto]|].
    apply in_run_Cat. eexists _, _. split; [apply in_run_Lit; eauto|].
    apply in_run_Lit. auto.
Qed.

Lemma space_not_digit c : isspace c = true -> isdigit c = false.
Proof.
  destruct c as [[] [] [] [] [] [] [] []]; vm_compute; congruence.
Qed.

Lemma dropwhile_app p (u x : text) :
  forallb p u = true -> dropwhile p (u ++ x) = dropwhile p x.
Proof.
  induction u as [|c u IH]; simpl; [reflexivity|].
  intros H. apply andb_true_iff in H. destruct H as [-> H]. auto.
Qed.

Lemma takewhile_app p (u x : text) :
  forallb p u = true -> takewhile p (u ++ x) = u ++ takewhile p x.
Proof.
  induction u as [|c u IH]; simpl; [reflexivity|].
  intros H. apply andb_true_iff in H. destruct H as [-> H].
  f_equal. auto.
Qed.

Lemma temperature_value_match m g rest :
  temperature_match m g -> temperature_value (m ++ rest) = g.
Proof.
  intros (ws & ws' & -> & Hws & Lws & Hg & Lg & Hws' & Lws').
  unfold temperature_value. rewrite <- !app_assoc.
  rewrite skipn_length_app, dropwhile_app by assumption.
  destruct g as [|d g]; [simpl in Lg; lia|].
  destruct ws' as [|w ws']; [simpl in Lws'; lia|].
  simpl in Hg, Hws'.
  apply andb_true_iff in Hg. destruct Hg as [Hd Hg].
  apply andb_true_iff in Hws'. destruct Hws' as [Hw Hws'].
  change ((d :: g) ++ (w :: ws') ++ Celsius_lit ++ rest)
    with (d :: g ++ (w :: ws') ++ Celsius_lit ++ rest).
  unfold dropwhile; fold dropwhile.
  destruct (isspace d) eqn:E;
    [apply space_not_digit in E; congruence|].
  unfold takewhile; fold takewhile. rewrite Hd. f_equal.
  rewrite takewhile_app by assumption.
  change ((w :: ws') ++ Celsius_lit ++ rest)
    with (w :: ws' ++ Celsius_lit ++ rest).
  unfold takewhile; fold takewhile.
  rewrite (space_not_digit _ Hw). apply app_nil_r.
Qed.

Lemma in_class p (u : text) c : forallb p u = true -> In c u -> p c = true.
Proof. intros H. rewrite forallb_forall in H. auto. Qed.

Lemma match_head m g :
  temperature_match m g -> exists m', m = "T"%char :: m' /\ ~ In "T"%char m'.
Proof.
  intros (ws & ws' & -> & Hws & _ & Hg & _ & Hws' & _).
  exists (txt "emperature:" ++ ws ++ g ++ ws' ++ Celsius_lit).
  split; [reflexivity|].
  intros H. repeat (apply in_app_or in H; destruct H as [H|H]).
  - revert H. vm_compute. intuition discriminate.
  - apply (in_class _ _ _ Hws) in H. vm_compute in H. discriminate.
  - apply (in_class _ _ _ Hg) in H. vm_compute in H. discriminate.
  - apply (in_class _ _ _ Hws') in H. vm_compute in H. discriminate.
  - revert H. vm_compute. intuition discriminate.
Qed.

Lemma match_no_f m g : temperature_match m g -> ~ In "f"%char m.
Proof.
  intros (ws & ws' & -> & Hws & _ & Hg & _ & Hws' & _) H.
  repeat (apply in_app_or in H; destruct H as [H|H]).
  - revert H. vm_compute. intuition discriminate.
  - apply (in_class _ _ _ Hws) in H. vm_compute in H. discriminate.
  - apply (in_class _ _ _ Hg) in H. vm_compute in H. discriminate.
  - apply (in_class _ _ _ Hws') in H. vm_compute in H. discriminate.
  - revert H. vm_compute. intuition discriminate.
Qed.

Lemma match_last m g :
  temperature_match m g -> exists m', m = m' ++ ["s"%char].
Proof.
  intros (ws & ws' & -> & _).
  exists (Temperature_lit ++ ws ++ g ++ ws' ++ txt "Celsiu").
  now rewrite <- !app_assoc.
Qed.

Lemma run_temperature_unique (s : text) cs rest tl m g r :
  run re_temperature s [] = (cs, rest) :: tl ->
  s = m ++ r -> temperature_match m g -> cs = [(1, g)].
Proof.
  intros Hrun Hs Hm.
  assert (Hin : In (cs, rest) (run re_temperature s []))
    by (rewrite Hrun; left; reflexivity).
  apply run_temperature in Hin.
  destruct Hin as (m' & g' & Hs' & Hm' & ->).
  pose proof (temperature_value_match rest Hm') as H1.
  pose proof (temperature_value_match r Hm) as H2.
  rewrite <- Hs' in H1. rewrite <- Hs in H2. congruence.
Qed.

Lemma run_temperature_match (m g r : text) :
  temperature_match m g ->
  exists rest tl, run re_temperature (m ++ r) [] = ([(1, g)], rest) :: tl.
Proof.
  intros Hm.
  assert (Hin : In ([(1, g)], r) (run re_temperature (m ++ r) []))
    by (apply run_temperature; eauto).
  destruct (nonempty_in _ _ Hin) as ([cs rest] & tl & E).
  rewrite E. rewrite (run_temperature_unique _ E eq_refl Hm). eauto.
Qed.

Lemma run_temperature_none (s m g r : text) :
  run re_temperature s [] = [] -> temperature_match m g -> s <> m ++ r.
Proof.
  intros E Hm ->.
  destruct (run_temperature_match r Hm) as (rest & tl & H). congruence.
Qed.

Lemma run_temperature_some (s : text) :
  run re_temperature s [] <> [] ->
  exists m g r, s = m ++ r /\ temperature_match m g.
Proof.
  destruct (run re_temperature s []) as [|[cs rest] tl] eqn:E; [congruence|].
  intros _.
  assert (Hin : In (cs, rest) (run re_temperature s []))
    by (rewrite E; left; reflexivity).
  apply run_temperature in Hin. destruct Hin as (m & g & -> & Hm & _).
  eauto.
Qed.

(** A match found in a text is still the first match when more text
    follows. *)
Lemma search_temperature_app (pre x : text) a :
  search re_temperature pre = Some a ->
  search re_temperature (pre ++ x) = Some a.
Proof.
  intros H. apply search_Some in H.
  destruct H as (u & v & rest & tl & -> & Hrun & Hearly).
  assert (Hin : In (a, rest) (run re_temperature v []))
    by (rewrite Hrun; left; reflexivity).
  apply run_temperature in Hin. destruct Hin as (m & g & -> & Hm & ->).
  rewrite <- app_assoc. rewrite search_skip.
  - rewrite <- app_assoc.
    destruct (run_temperature_match (rest ++ x) Hm) as (r' & tl' & E).
    eapply search_at; eassumption.
  - intros u1 u2 -> Hne.
    destruct (run re_temperature (u2 ++ (m ++ rest) ++ x) [])
      as [|m0 tl0] eqn:E; [reflexivity|exfalso].
    assert (Hn : run re_temperature (u2 ++ (m ++ rest) ++ x) [] <> [])
      by congruence.
    apply run_temperature_some in Hn.
    destruct Hn as (m2 & g2 & r2 & Heq & Hm2).
    apply app_eq_app in Heq. destruct Heq as (l & [[H1 H2] | [H1 H2]]).
    + (* the match ends inside [u2] *)
      apply (@run_temperature_none _ _ _ (l ++ m ++ rest)
               (Hearly u1 u2 eq_refl Hne) Hm2).
      rewrite H1. now rewrite <- app_assoc.
    + destruct l as [|c l].
      * rewrite app_nil_r in H1. subst m2.
        apply (@run_temperature_none _ _ _ (m ++ rest)
                 (Hearly u1 u2 eq_refl Hne) Hm2).
        reflexivity.
      * destruct (match_head Hm) as (m' & -> & _).
        simpl in H2. injection H2 as <- _.
        destruct (match_head Hm2) as (m2' & Hm2' & Hno).
        destruct u2 as [|d u2]; [congruence|].
        rewrite H1 in Hm2'. simpl in Hm2'. injection Hm2' as _ <-.
        apply Hno. apply in_or_app. right. left. reflexivity.
Qed.

(** No match starts before or inside a marker that follows a text without
    match. *)
Lemma search_temperature_after (pre post : text) :
  search re_temperature pre = None ->
  search re_temperature (pre ++ after_test ++ post) =
  search re_temperature post.
Proof.
  intros Hnone. rewrite app_assoc. apply search_skip.
  intros u1 u2 Hu Hne.
  destruct (run re_temperature (u2 ++ post) []) as [|m0 tl0] eqn:E;
    [reflexivity|exfalso].
  assert (Hn : run re_temperature (u2 ++ post) [] <> []) by congruence.
  apply run_temperature_some in Hn.
  destruct Hn as (m & g & r & Heq & Hm).
  apply app_eq_app in Hu. destruct Hu as (l & [[H1 H2] | [H1 H2]]).
  - (* [u2] starts in [pre] *)
    subst u2. rewrite <- app_assoc in Heq.
    apply app_eq_app in Heq. destruct Heq as (k & [[H3 H4] | [H3 H4]]).
    + apply (@run_temperature_none _ _ _ k
               (@search_None _ _ Hnone u1 l H1) Hm).
      exact H3.
    + destruct k as [|c k].
      * rewrite app_nil_r in H3. subst m.
        apply (@run_temperature_none _ _ _ []
                 (@search_None _ _ Hnone u1 l H1) Hm).
        now rewrite app_nil_r.
      * simpl in H4. injection H4 as <- H4.
        destruct k as [|c' k].
        -- destruct (match_last Hm) as (m' & Hm').
           rewrite H3 in Hm'. apply app_inj_tail in Hm'.
           destruct Hm' as [_ Hm']. discriminate.
        -- simpl in H4. injection H4 as <- _.
           apply (match_no_f Hm). rewrite H3.
           apply in_or_app. right. right. left. reflexivity.
  - (* [u2] starts inside the marker *)
    destruct u2 as [|c u2]; [congruence|].
    destruct (match_head Hm) as (m' & -> & _).
    simpl in Heq. injection Heq as -> _.
    assert (Hin : In "T"%char after_test)
      by (rewrite H2; apply in_or_app; right; left; reflexivity).
    revert Hin. vm_compute. intuition discriminate.
Qed.

(** ** Splitting at a separator *)

Section Split.

Variable sep : text.
Hypothesis sep_nonempty : sep <> [].
Hypothesis sep_borderless : borderless sep.

Lemma split_go_none (s acc : text) :
  contains sep s = false -> split_go sep 0 acc s = [rev acc ++ s].
Proof.
  revert acc; induction s as [|c s IH]; intros acc H.
  - simpl. now rewrite app_nil_r.
  - unfold contains in H; fold contains in H.
    apply orb_false_iff in H. destruct H as [Hp Hc].
    unfold split_go; fold split_go. rewrite Hp.
    rewrite IH by assumption. simpl. now rewrite <- app_assoc.
Qed.

Lemma split_go_skip (u s acc : text) :
  split_go sep (length u) acc (u ++ s) = split_go sep 0 acc s.
Proof. induction u as [|c u IH]; simpl; auto. Qed.

Lemma split_go_found (s acc : text) :
  split_go sep 0 acc (sep ++ s) = rev acc :: split_go sep 0 [] s.
Proof.
  pose proof (prefixb_app sep s) as Hp.
  assert (exists c sep', sep = c :: sep') as (c & sep' & Hsep)
    by (destruct sep; [congruence | eauto]).
  revert Hp. rewrite Hsep. intros Hp.
  change ((c :: sep') ++ s) with (c :: sep' ++ s) in *.
  unfold split_go at 1; fold split_go. rewrite Hp. f_equal.
  replace (length (c :: sep') - 1) with (length sep') by (simpl; lia).
  rewrite <- Hsep.
  apply split_go_skip.
Qed.

Lemma split_go_step (c : ascii) (s acc : text) :
  prefixb sep (c :: s) = false ->
  split_go sep 0 acc (c :: s) = split_go sep 0 (c :: acc) s.
Proof. intros H. unfold split_go; fold split_go. now rewrite H. Qed.

Lemma prefix_of_shorter (l s'' post : text) :
  sep ++ post = l ++ s'' -> length l <= length sep -> prefixb l sep = true.
Proof.
  intros H Hl. apply app_eq_app in H.
  destruct H as (k & [[H1 H2] | [H1 H2]]).
  - rewrite H1. apply prefixb_app.
  - assert (k = []) as ->.
    { apply (f_equal (@length ascii)) in H1. rewrite length_app in H1.
      destruct k; [reflexivity | simpl in H1; lia]. }
    rewrite app_nil_r in H1. subst l.
    rewrite <- (app_nil_r sep) at 2. apply prefixb_app.
Qed.

Lemma split_go_last (post : text) :
  contains sep post = false ->
  forall n pre acc, length pre <= n ->
    exists front,
      split_go sep 0 acc (pre ++ sep ++ post) = front ++ [post] /\
      front <> [].
Proof.
  intros Hpost. induction n as [|n IH]; intros pre acc Hn.
  - destruct pre; [|simpl in Hn; lia]. simpl app.
    rewrite split_go_found, split_go_none by assumption.
    exists [rev acc]. split; [reflexivity | discriminate].
  - destruct (prefixb sep (pre ++ sep ++ post)) eqn:E.
    + pose proof (prefixb_true _ _ E) as Hs.
      remember (skipn (length sep) (pre ++ sep ++ post)) as s'' eqn:Es.
      clear Es. rewrite Hs, split_go_found.
      assert (Hfront : forall front,
                 split_go sep 0 [] s'' = front ++ [post] ->
                 exists front',
                   rev acc :: split_go sep 0 [] s'' = front' ++ [post] /\
                   front' <> []).
      { intros front ->. exists (rev acc :: front).
        split; [reflexivity | discriminate]. }
      apply app_eq_app in Hs.
      destruct Hs as (l & [[H1 H2] | [H1 H2]]).
      * (* the separator found lies inside [pre] *)
        assert (Hl : length l <= n).
        { apply (f_equal (@length ascii)) in H1. rewrite length_app in H1.
          destruct sep; [congruence | simpl in H1; lia]. }
        destruct (IH l [] Hl) as (front & Hf & _).
        subst s''. eapply Hfront; eassumption.
      * destruct pre as [|c pre].
        -- simpl in H1. subst l. apply app_inv_head in H2. subst s''.
           rewrite split_go_none by assumption.
           exists [rev acc]. split; [reflexivity | discriminate].
        -- destruct l as [|d l].
           ++ rewrite app_nil_r in H1. simpl in H2. subst s''.
              destruct (IH [] [] (Nat.le_0_l n)) as (front & Hf & _).
              simpl in Hf. eapply Hfront; eassumption.
           ++ exfalso.
              assert (Hb : prefixb (d :: l) sep = false)
                by (apply (sep_borderless H1); discriminate).
              rewrite (@prefix_of_shorter _ _ _ H2) in Hb; [discriminate|].
              rewrite H1, length_app. simpl. lia.
    + destruct pre as [|c pre].
      * simpl in E. rewrite prefixb_app in E. discriminate.
      * simpl app. rewrite split_go_step by exact E.
        apply IH. simpl in Hn. lia.
Qed.

Lemma str_split_last (pre post : text) :
  contains sep post = false ->
  (1 <? length (str_split sep (pre ++ sep ++ post))) = true /\
  last (str_split sep (pre ++ sep ++ post)) [] = post.
Proof.
  intros Hpost. unfold str_split.
  destruct (@split_go_last post Hpost (length pre) pre []
              (Nat.le_refl (length pre)))
    as (front & -> & Hne).
  split.
  - apply Nat.ltb_lt. rewrite length_app. simpl.
    destruct front; [congruence | simpl; lia].
  - apply last_last.
Qed.

Lemma str_split_none (s : text) :
  contains sep s = false -> str_split sep s = [s].
Proof. intros H. unfold str_split. now rewrite split_go_none. Qed.

End Split.

Lemma after_test_borderless : borderless after_test.
Proof.
  intros p l H Hp Hl.
  do 10 (destruct p as [|? p];
         [ try congruence; simpl in H; subst l; reflexivity
         | simpl in H; injection H as <- H ]).
  symmetry in H. apply app_eq_nil in H. destruct H; congruence.
Qed.

Lemma after_test_nonempty : after_test <> [].
Proof. discriminate. Qed.

Lemma after_section_some (pre post : text) :
  contains after_test post = false ->
  after_section (pre ++ after_test ++ post) = Some post.
Proof.
  intros H. unfold after_section; cbv zeta.
  destruct (@str_split_last after_test after_test_nonempty
              after_test_borderless pre post H)
    as [-> ->].
  reflexivity.
Qed.

Lemma after_section_none (content : text) :
  contains after_test content = false -> after_section content = None.
Proof.
  intros H. unfold after_section; cbv zeta.
  rewrite (@str_split_none after_test content H). reflexivity.
Qed.

(** ** Scope of the temperature fields *)

(** C1.  For a text [pre ++ "after test" ++ post] whose part [post] holds
    no marker, the post-test fields are extracted from [post] alone, so a
    value of [pre] never reaches them, while the first temperature of [pre]
    is the temperature before; a text without marker leaves the post-test
    fields at their defaults.  The text with 40 before the marker and 55
    after it gives 40 and 55. *)
Theorem post_test_scoping (name pre post content : text) :
  contains after_test post = false ->
  contains after_test content = false ->
  (let d := parse name (Some (pre ++ after_test ++ post)) in
   temp_after d =
     match search re_temperature post with
     | Some m => group 1 m | None => txt "Unknown" end /\
   temp_sensors_after d = sensor_pairs post /\
   data_read d =
     match search re_data_read post with
     | Some m => strip (group 2 m) | None => txt "Unknown" end /\
   data_written d =
     match search re_data_written post with
     | Some m => strip (group 2 m) | None => txt "Unknown" end /\
   (forall pre',
      let d' := parse name (Some (pre' ++ after_test ++ post)) in
      temp_after d' = temp_after d /\
      temp_sensors_after d' = temp_sensors_after d /\
      data_read d' = data_read d /\ data_written d' = data_written d) /\
   (forall a b,
      search re_temperature pre = Some a ->
      search re_temperature post = Some b ->
      temp_before d = group 1 a /\ temp_after d = group 1 b)) /\
  (let d := parse name (Some content) in
   temp_after d = txt "Unknown" /\ temp_sensors_after d = [] /\
   data_read d = txt "Unknown" /\ data_written d = txt "Unknown") /\
  (let d := parse name (Some two_blocks) in
   temp_before d = txt "40" /\ temp_after d = txt "55").
Proof.
  intros Hpost Hcontent.
  assert (Hfields : forall p,
    let d := parse name (Some (p ++ after_test ++ post)) in
    temp_after d =
      match search re_temperature post with
      | Some m => group 1 m | None => txt "Unknown" end /\
    temp_sensors_after d = sensor_pairs post /\
    data_read d =
      match search re_data_read post with
      | Some m => strip (group 2 m) | None => txt "Unknown" end /\
    data_written d =
      match search re_data_written post with
      | Some m => strip (group 2 m) | None => txt "Unknown" end).
  { intros p. unfold parse, parse_into; cbv zeta.
    autorewrite with parse_fields.
    rewrite (@after_section_some p post Hpost). repeat split; reflexivity. }
  split; [|split].
  - cbv zeta. destruct (Hfields pre) as (H1 & H2 & H3 & H4).
    split; [exact H1|]. split; [exact H2|]. split; [exact H3|].
    split; [exact H4|]. split.
    + intros pre'. cbv zeta.
      destruct (Hfields pre') as (H1' & H2' & H3' & H4').
      repeat split; congruence.
    + intros a b Ha Hb. split.
      * unfold parse, parse_into. rewrite parse_temp_before.
        rewrite (@search_temperature_app pre (after_test ++ post) a Ha).
        reflexivity.
      * rewrite H1, Hb. reflexivity.
  - unfold parse, parse_into; cbv zeta.
    autorewrite with parse_fields.
    rewrite (@after_section_none content Hcontent). repeat split; reflexivity.
  - vm_compute. split; reflexivity.
Qed.

Lemma post_test_scoping_witness :
  let d := parse (txt "nvme0n1")
             (Some (txt "Temperature: 41 Celsius" ++ after_test ++
                    txt "Temperature: 57 Celsius")) in
  temp_before d = txt "41" /\ temp_after d = txt "57".
Proof.
  intros d.
  destruct (@post_test_scoping (txt "nvme0n1") (txt "Temperature: 41 Celsius")
              (txt "Temperature: 57 Celsius") (txt "no marker")
              eq_refl eq_refl) as ((_ & _ & _ & _ & _ & H) & _).
  exact (H [(1, txt "41")] [(1, txt "57")] eq_refl eq_refl).
Defined.

(** C9.  The temperature before the test is the group of the first match
    of the temperature pattern in the whole text.  When the part before the
    last marker has no match and the part after it has one, both
    temperatures are that post-test value; when the text has a match and no
    marker, the temperature before is set and the one after stays
    Unknown. *)
Theorem temp_before_unscoped (name pre post content : text) :
  contains after_test post = false ->
  contains after_test content = false ->
  (forall c,
     temp_before (parse name (Some c)) =
     match search re_temperature c with
     | Some m => group 1 m | None => txt "Unknown" end) /\
  (forall b,
     search re_temperature pre = None ->
     search re_temperature post = Some b ->
     let d := parse name (Some (pre ++ after_test ++ post)) in
     temp_before d = group 1 b /\ temp_after d = group 1 b) /\
  (forall m,
     search re_temperature content = Some m ->
     let d := parse name (Some content) in
     temp_before d = group 1 m /\ temp_after d = txt "Unknown").
Proof.
  intros Hpost Hcontent.
  split; [|split].
  - intros c. unfold parse, parse_into. apply parse_temp_before.
  - intros b Hpre Hb. unfold parse, parse_into; cbv zeta.
    rewrite parse_temp_before, parse_temp_after.
    rewrite (@after_section_some pre post Hpost).
    rewrite (@search_temperature_after pre post Hpre), Hb. split; reflexivity.
  - intros m Hm. unfold parse, parse_into; cbv zeta.
    rewrite parse_temp_before, parse_temp_after.
    rewrite (@after_section_none content Hcontent), Hm. split; reflexivity.
Qed.

Lemma temp_before_unscoped_witness :
  (let d := parse (txt "nvme0n1")
              (Some (txt "SMART data " ++ after_test ++
                     txt " Temperature: 57 Celsius")) in
   temp_before d = txt "57" /\ temp_after d = txt "57") /\
  (let d := parse (txt "nvme0n1") (Some (txt "Temperature: 41 Celsius")) in
   temp_before d = txt "41" /\ temp_after d = txt "Unknown").
Proof.
  destruct (@temp_before_unscoped (txt "nvme0n1") (txt "SMART data ")
              (txt " Temperature: 57 Celsius")
              (txt "Temperature: 41 Celsius") eq_refl eq_refl)
    as (_ & H1 & H2).
  split.
  - exact (H1 [(1, txt "57")] eq_refl eq_refl).
  - exact (H2 [(1, txt "41")] eq_refl).
Defined.

(** * Further properties *)

Unset Implicit Arguments.

(** ** What the groups of a match hold *)

Lemma in_run_Opt p s cs cs' s' :
  In (cs', s') (run (Opt p) s cs) <->
  cs' = cs /\ (s' = s \/ exists c, s = c :: s' /\ p c = true).
Proof.
  simpl. destruct s as [|c s].
  - simpl. split.
    + intros [[= <- <-] | []]. auto.
    + intros (-> & [-> | (c & H & _)]); [auto | discriminate].
  - destruct (p c) eqn:E; simpl; split.
    + intros [[= <- <-] | [[= <- <-] | []]]; split; eauto.
    + intros (-> & [-> | (c' & [= <- <-] & _)]); auto.
    + intros [[= <- <-] | []]. auto.
    + intros (-> & [-> | (c' & [= <- <-] & H)]); [auto | congruence].
Qed.

Lemma run_captures good r :
  groups_in good r ->
  forall s cs cs' s',
    In (cs', s') (run r s cs) ->
    exists new,
      cs' = new ++ cs /\
      Forall (fun kv => good (fst kv) (snd kv)) new /\
      (forall n, defines n r = true -> exists v, In (n, v) new).
Proof.
  induction r as [l|p lo g|p|r1 IH1 r2 IH2|m r1 IH1]; intros Hg s cs cs' s' H.
  - apply in_run_Lit in H. destruct H as [_ ->].
    exists []. repeat split; [constructor | discriminate].
  - apply in_run_Rep in H. destruct H as [-> _].
    exists []. repeat split; [constructor | discriminate].
  - apply in_run_Opt in H. destruct H as [-> _].
    exists []. repeat split; [constructor | discriminate].
  - destruct Hg as [Hg1 Hg2].
    apply in_run_Cat in H. destruct H as (cs1 & s1 & H1 & H2).
    destruct (IH1 Hg1 _ _ _ _ H1) as (new1 & -> & F1 & D1).
    destruct (IH2 Hg2 _ _ _ _ H2) as (new2 & -> & F2 & D2).
    exists (new2 ++ new1). split; [now rewrite app_assoc|].
    split; [apply Forall_app; auto|].
    intros n Hn. simpl in Hn. apply orb_true_iff in Hn.
    destruct Hn as [Hn | Hn].
    + destruct (D1 n Hn) as (v & Hv). exists v. apply in_or_app. auto.
    + destruct (D2 n Hn) as (v & Hv). exists v. apply in_or_app. auto.
  - destruct Hg as [Hm Hg1].
    apply in_run_Grp in H. destruct H as (cs1 & H1 & ->).
    destruct (IH1 Hg1 _ _ _ _ H1) as (new1 & -> & F1 & D1).
    exists ((m, firstn (length s - length s') s) :: new1).
    split; [reflexivity|]. split.
    + constructor; [|exact F1]. simpl. eapply Hm; eassumption.
    + intros n Hn. simpl in Hn. apply orb_true_iff in Hn.
      destruct Hn as [Hn | Hn].
      * apply Nat.eqb_eq in Hn. subst. eexists. left. reflexivity.
      * destruct (D1 n Hn) as (v & Hv). exists v. right. exact Hv.
Qed.

Lemma group_of_new (good : nat -> text -> Prop) n new cs :
  Forall (fun kv => good (fst kv) (snd kv)) new ->
  (exists v, In (n, v) new) ->
  good n (group n (new ++ cs)).
Proof.
  induction new as [|[k v] new IH]; intros F [w Hw]; [destruct Hw|].
  inversion F as [|? ? Hk F']; subst. simpl in *.
  destruct (Nat.eqb_spec k n) as [-> | Hne]; [exact Hk|].
  apply IH; [exact F'|]. destruct Hw as [[= -> _] | Hw]; [congruence | eauto].
Qed.

Lemma run_group good r n s cs' s' :
  groups_in good r -> defines n r = true ->
  In (cs', s') (run r s []) -> good n (group n cs').
Proof.
  intros Hg Hd H.
  destruct (run_captures good r Hg _ _ _ _ H) as (new & -> & F & D).
  apply group_of_new; auto.
Qed.

Lemma search_group good r n s a :
  groups_in good r -> defines n r = true ->
  search r s = Some a -> good n (group n a).
Proof.
  intros Hg Hd H. apply search_Some in H.
  destruct H as (u & v & rest & tl & _ & Hrun & _).
  apply (run_group good r n v a rest Hg Hd).
  rewrite Hrun. left. reflexivity.
Qed.

Lemma findall_go_in r k s a :
  In a (findall_go r k s) ->
  exists v rest tl, run r v [] = (a, rest) :: tl.
Proof.
  revert k; induction s as [|c s IH]; intros k H; [destruct H|].
  unfold findall_go in H; fold findall_go in H.
  destruct k as [|k]; [|eauto].
  destruct (run r (c :: s) []) as [|[cs rest] tl] eqn:E; [eauto|].
  destruct H as [<- | H]; eauto.
Qed.

Lemma findall_group good r n s a :
  groups_in good r -> defines n r = true ->
  In a (findall r s) -> good n (group n a).
Proof.
  intros Hg Hd H. apply findall_go_in in H.
  destruct H as (v & rest & tl & Hrun).
  apply (run_group good r n v a rest Hg Hd).
  rewrite Hrun. left. reflexivity.
Qed.

Lemma rep_consumed p lo g s cs cs' s' :
  In (cs', s') (run (Rep p lo g) s cs) ->
  forallb p (firstn (length s - length s') s) = true /\
  lo <= length (firstn (length s - length s') s).
Proof.
  intros H. apply in_run_Rep in H.
  destruct H as (_ & u & -> & Hu & Hl). now rewrite firstn_consumed.
Qed.

Lemma rep_run_of p g s cs cs' s' :
  In (cs', s') (run (Rep p 1 g) s cs) ->
  run_of p (firstn (length s - length s') s).
Proof.
  intros H. apply rep_consumed in H. destruct H as [Hp Hl].
  split; [|exact Hp].
  destruct (firstn (length s - length s') s); [simpl in Hl; lia|discriminate].
Qed.

(** ** Shape of the extracted fields *)

Lemma groups_temperature :
  groups_in (fun _ v => run_of isdigit v) re_temperature.
Proof.
  unfold re_temperature, cats, fold_right, groups_in.
  repeat split; intros; eapply rep_run_of; eassumption.
Qed.

Lemma groups_sensor : groups_in (fun _ v => run_of isdigit v) re_sensor.
Proof.
  unfold re_sensor, cats, fold_right, groups_in.
  repeat split; intros; eapply rep_run_of; eassumption.
Qed.

Lemma groups_read_perf : groups_in first_is_digits re_read_perf.
Proof.
  unfold re_read_perf, cats, fold_right, groups_in, first_is_digits.
  repeat split; intros; try discriminate; eapply rep_run_of; eassumption.
Qed.

Lemma groups_write_perf n : groups_in first_is_digits (write_perf n).
Proof.
  unfold write_perf, cats, fold_right, groups_in, first_is_digits.
  repeat split; intros; eapply rep_run_of; eassumption.
Qed.

Lemma groups_checkpoint_iops : groups_in first_is_digits re_checkpoint_iops.
Proof.
  unfold re_checkpoint_iops, cats, fold_right, groups_in, first_is_digits.
  repeat split; intros; eapply rep_run_of; eassumption.
Qed.

Lemma groups_errors : groups_in first_is_digits re_errors.
Proof.
  unfold re_errors, cats, fold_right, groups_in, first_is_digits.
  repeat split; intros; eapply rep_run_of; eassumption.
Qed.

Lemma k_or_M_cases c : k_or_M c = true -> [c] = txt "k" \/ [c] = txt "M".
Proof.
  unfold k_or_M. intros H. apply orb_true_iff in H.
  destruct H as [H | H]; apply Ascii.eqb_eq in H; subst; auto.
Qed.

Lemma groups_iops op : groups_in (fun _ v => iops_text v) (iops_of op).
Proof.
  unfold iops_of, cats, fold_right, groups_in.
  repeat split. intros s cs cs' s' H.
  apply in_run_Cat in H. destruct H as (cs1 & s1 & H1 & H2).
  apply in_run_Rep in H1. destruct H1 as (_ & u & -> & Hu & Lu).
  assert (Ru : run_of digit_or_point u).
  { split; [|exact Hu]. destruct u; [simpl in Lu; lia | discriminate]. }
  apply in_run_Opt in H2. destruct H2 as (_ & [-> | (c & -> & Hc)]).
  - rewrite firstn_consumed. exists u, []. rewrite app_nil_r. auto.
  - change (u ++ c :: s') with (u ++ [c] ++ s').
    rewrite app_assoc, firstn_consumed.
    exists u, [c]. split; [reflexivity|]. split; [exact Ru|].
    right. apply k_or_M_cases, Hc.
Qed.

(** X1. Thermal fields: [temp_before] and [temp_after] are Unknown or a run
    of digits, and every sensor entry is "Sensor <digits>" with digits. *)
Theorem thermal_fields_shape (name : text) (file : option text) :
  let d := parse name file in
  unknown_or (run_of isdigit) (temp_before d) /\
  unknown_or (run_of isdigit) (temp_after d) /\
  Forall sensor_entry (temp_sensors_after d).
Proof.
  destruct file as [c|]; [|repeat split; [left | left | constructor];
                            reflexivity].
  unfold parse, parse_into; cbv zeta.
  rewrite parse_temp_before, parse_temp_after, parse_temp_sensors_after.
  split; [|split].
  - destruct (search re_temperature c) as [m|] eqn:E; [right|left; reflexivity].
    exact (search_group _ re_temperature 1 c _ groups_temperature eq_refl E).
  - destruct (after_section c) as [a|]; [|left; reflexivity].
    destruct (search re_temperature a) as [m|] eqn:E; [right|left; reflexivity].
    exact (search_group _ re_temperature 1 a _ groups_temperature eq_refl E).
  - destruct (after_section c) as [a|]; [|constructor].
    apply Forall_forall. intros p Hp. apply in_map_iff in Hp.
    destruct Hp as (m & <- & Hm). exists (group 1 m).
    split; [reflexivity|]. split.
    + exact (findall_group _ re_sensor 1 a m groups_sensor eq_refl Hm).
    + exact (findall_group _ re_sensor 2 a m groups_sensor eq_refl Hm).
Qed.

(** X2. Throughput fields: a bandwidth is Unknown or digits followed by
    " MiB/s"; the checkpoint IOPS is Unknown or digits; the read and write
    IOPS are Unknown or digits and points with an optional k or M. *)
Theorem throughput_fields_shape (name : text) (file : option text) :
  let d := parse name file in
  unknown_or bandwidth_text (read_bw d) /\
  unknown_or bandwidth_text (write_bw d) /\
  unknown_or bandwidth_text (checkpoint_write_bw d) /\
  unknown_or (run_of isdigit) (checkpoint_write_iops d) /\
  unknown_or iops_text (read_iops d) /\
  unknown_or iops_text (write_iops d).
Proof.
  destruct file as [c|]; [|repeat split; left; reflexivity].
  unfold parse, parse_into; cbv zeta.
  rewrite parse_read_bw, parse_write_bw, parse_checkpoint_write_bw,
    parse_checkpoint_write_iops, parse_read_iops, parse_write_iops.
  repeat split.
  - destruct (search re_read_perf c) as [m|] eqn:E; [right|left; reflexivity].
    exists (group 1 m). split; [|reflexivity].
    exact (search_group _ re_read_perf 1 c _ groups_read_perf eq_refl E
             eq_refl).
  - destruct (search re_write_perf c) as [m|] eqn:E; [right|left; reflexivity].
    exists (group 1 m). split; [|reflexivity].
    exact (search_group _ re_write_perf 1 c _ (groups_write_perf _) eq_refl E
             eq_refl).
  - destruct (search re_checkpoint c) as [m|] eqn:E; [right|left; reflexivity].
    exists (group 1 m). split; [|reflexivity].
    exact (search_group _ re_checkpoint 1 c _ (groups_write_perf _) eq_refl E
             eq_refl).
  - destruct (search re_checkpoint_iops c) as [m|] eqn:E;
      [right|left; reflexivity].
    exact (search_group _ re_checkpoint_iops 1 c _ groups_checkpoint_iops
             eq_refl E eq_refl).
  - destruct (search re_read_iops c) as [m|] eqn:E; [right|left; reflexivity].
    exact (search_group _ re_read_iops 1 c _ (groups_iops _) eq_refl E).
  - destruct (search re_write_iops c) as [m|] eqn:E; [right|left; reflexivity].
    exact (search_group _ re_write_iops 1 c _ (groups_iops _) eq_refl E).
Qed.

(** ** Error count *)

Lemma digit_not_space c : isdigit c = true -> isspace c = false.
Proof.
  intros H. destruct (isspace c) eqn:E; [|reflexivity].
  apply space_not_digit in E. congruence.
Qed.

Lemma dropwhile_head p (s : text) :
  dropwhile p s = [] \/ exists c r, dropwhile p s = c :: r /\ p c = false.
Proof.
  induction s as [|c s IH]; simpl; [auto|].
  destruct (p c) eqn:E; [exact IH | right; eauto].
Qed.

Lemma dropwhile_suffix p (s : text) :
  exists a, s = a ++ dropwhile p s /\ forallb p a = true.
Proof.
  induction s as [|c s IH]; simpl; [exists []; auto|].
  destruct (p c) eqn:E.
  - destruct IH as (a & Ha & Fa). exists (c :: a). simpl.
    rewrite E, Fa. split; [congruence | reflexivity].
  - exists []. auto.
Qed.

Lemma dropwhile_none p (s : text) :
  (forall c r, s = c :: r -> p c = false) -> dropwhile p s = s.
Proof.
  destruct s as [|c s]; [reflexivity|]. intros H. simpl.
  now rewrite (H c s eq_refl).
Qed.

Lemma forallb_rev p (s : text) : forallb p (rev s) = forallb p s.
Proof.
  induction s as [|c s IH]; simpl; [reflexivity|].
  rewrite forallb_app, IH. simpl. rewrite andb_true_r. apply andb_comm.
Qed.

Lemma strip_decomp (s : text) :
  exists a b, s = a ++ strip s ++ b /\
              forallb isspace a = true /\ forallb isspace b = true.
Proof.
  unfold strip.
  destruct (dropwhile_suffix isspace s) as (a & Ha & Fa).
  destruct (dropwhile_suffix isspace (rev (dropwhile isspace s)))
    as (b & Hb & Fb).
  exists a, (rev b). split; [|split; [exact Fa | now rewrite forallb_rev]].
  rewrite <- rev_app_distr, <- Hb, rev_involutive. exact Ha.
Qed.

Lemma strip_no_outer_space (s : text) : no_outer_space (strip s).
Proof.
  unfold strip.
  set (t := dropwhile isspace s).
  set (u := dropwhile isspace (rev t)).
  split.
  - intros c r H.
    destruct (dropwhile_suffix isspace (rev t)) as (b & Hb & Fb).
    fold u in Hb. apply (f_equal (@rev ascii)) in Hb.
    rewrite rev_involutive, rev_app_distr, H in Hb. simpl in Hb.
    destruct (dropwhile_head isspace s) as [E | (c' & r' & E & Hc)];
      fold t in E; rewrite E in Hb; [discriminate|].
    injection Hb as -> _. exact Hc.
  - intros i c H. apply (f_equal (@rev ascii)) in H.
    rewrite rev_involutive, rev_app_distr in H. simpl in H.
    destruct (dropwhile_head isspace (rev t)) as [E | (c' & r' & E & Hc)];
      fold u in E; rewrite E in H; [discriminate|].
    injection H as -> _. exact Hc.
Qed.

Lemma strip_class p (s : text) :
  forallb p s = true -> forallb p (strip s) = true.
Proof.
  intros H. destruct (strip_decomp s) as (a & b & Hs & _).
  rewrite Hs, !forallb_app in H.
  apply andb_true_iff in H. destruct H as [_ H].
  apply andb_true_iff in H. tauto.
Qed.

Lemma strip_unspaced (v : text) :
  forallb (fun c => negb (isspace c)) v = true -> strip v = v.
Proof.
  intros H. unfold strip.
  assert (Hd : forall w : text,
             forallb (fun c => negb (isspace c)) w = true ->
             dropwhile isspace w = w).
  { intros w Hw. apply dropwhile_none. intros c r ->. simpl in Hw.
    apply andb_true_iff in Hw. destruct Hw as [Hc _].
    now apply negb_true_iff in Hc. }
  rewrite (Hd v H), Hd, rev_involutive; [reflexivity|].
  now rewrite forallb_rev.
Qed.

Lemma digits_unspaced (v : text) :
  forallb isdigit v = true ->
  forallb (fun c => negb (isspace c)) v = true.
Proof.
  intros H. apply forallb_forall. intros c Hc.
  rewrite forallb_forall in H. now rewrite (digit_not_space _ (H c Hc)).
Qed.

Lemma digit_val_nonneg c : isdigit c = true -> (0 <= digit_val c <= 9)%Z.
Proof.
  unfold isdigit, digit_val. intros H.
  apply andb_true_iff in H. destruct H as [H1 H2].
  apply N.leb_le in H1, H2. lia.
Qed.

Lemma int_digits_of_digits (v : text) :
  forallb isdigit v = true ->
  forall acc prev, (0 <= acc)%Z -> v <> [] \/ prev = true ->
    exists n, int_digits acc prev v = Some n /\ (acc <= n)%Z.
Proof.
  induction v as [|c v IH]; intros Hv acc prev Hacc Hne.
  - destruct Hne as [Hne | ->]; [congruence|]. exists acc. simpl.
    split; [reflexivity | lia].
  - simpl in Hv. apply andb_true_iff in Hv. destruct Hv as [Hc Hv].
    simpl. rewrite Hc. pose proof (digit_val_nonneg _ Hc) as Hd.
    destruct (IH Hv (10 * acc + digit_val c)%Z true) as (n & Hn & Hle);
      [lia | auto |].
    exists n. split; [exact Hn | lia].
Qed.

Lemma py_int_of_digits (v : text) :
  run_of isdigit v ->
  exists n, py_int v = Some n /\ (0 <= n)%Z /\
            int_digits 0 false v = Some n.
Proof.
  intros [Hne Hv]. unfold py_int.
  rewrite (strip_unspaced _ (digits_unspaced _ Hv)).
  destruct (int_digits_of_digits _ Hv 0 false (Z.le_refl 0) (or_introl Hne))
    as (n & Hn & Hle).
  destruct v as [|c v]; [congruence|].
  simpl in Hv. apply andb_true_iff in Hv. destruct Hv as [Hc _].
  assert (Hm : Ascii.eqb c "-" = false).
  { destruct (Ascii.eqb_spec c "-"%char) as [-> |]; [discriminate|reflexivity]. }
  assert (Hp : Ascii.eqb c "+" = false).
  { destruct (Ascii.eqb_spec c "+"%char) as [-> |]; [discriminate|reflexivity]. }
  rewrite Hm, Hp. exists n. auto.
Qed.

(** X3. The error count is never negative, and when the pattern of the error
    log entries matches, on at most 4300 digits (beyond which [int] of
    current Python versions refuses a text, a limit that [py_int] does not
    have), the conversion of the digits by [int] succeeds and gives the count
    of the record. *)
Theorem error_count_read (name : text) (file : option text) :
  (0 <= errors (parse name file))%Z /\
  (forall c m,
     file = Some c -> search re_errors c = Some m ->
     length (group 1 m) <= 4300 ->
     exists n, py_int (group 1 m) = Some n /\
               errors (parse name file) = n).
Proof.
  assert (Hc : forall c m, search re_errors c = Some m ->
                 exists n, py_int (group 1 m) = Some n /\ (0 <= n)%Z).
  { intros c m E.
    pose proof (search_group _ re_errors 1 c m groups_errors eq_refl E eq_refl)
      as Hd.
    destruct (py_int_of_digits _ Hd) as (n & Hn & Hle & _). eauto. }
  split.
  - destruct file as [c|]; [|simpl; lia].
    unfold parse, parse_into. rewrite parse_errors. unfold error_entries.
    destruct (search re_errors c) as [m|] eqn:E; [|simpl; lia].
    destruct (Hc c m E) as (n & -> & Hn). exact Hn.
  - intros c m -> E _. destruct (Hc c m E) as (n & Hn & _).
    exists n. split; [exact Hn|].
    unfold parse, parse_into. rewrite parse_errors. unfold error_entries.
    now rewrite E, Hn.
Qed.

Lemma error_count_read_witness :
  errors (parse (txt "nvme0n1")
            (Some (txt "Error Information Log Entries:      17"))) = 17%Z.
Proof.
  destruct (error_count_read (txt "nvme0n1")
              (Some (txt "Error Information Log Entries:      17")))
    as (_ & H).
  assert (Hl : length (group 1 [(1, txt "17")]) <= 4300)
    by (change (2 <= 4300); lia).
  destruct (H _ [(1, txt "17")] eq_refl eq_refl Hl) as (n & Hn & ->).
  vm_compute in Hn. congruence.
Defined.

(** ** Stripped fields *)

Lemma comma_class_dot c : digit_or_comma c = true -> dot c = true.
Proof.
  destruct c as [[] [] [] [] [] [] [] []]; vm_compute; congruence.
Qed.

Lemma rep_class (p q : ascii -> bool) lo g s cs cs' s' :
  (forall c, p c = true -> q c = true) ->
  In (cs', s') (run (Rep p lo g) s cs) ->
  forallb q (firstn (length s - length s') s) = true.
Proof.
  intros Hpq H. apply rep_consumed in H. destruct H as [H _].
  apply forallb_forall. intros c Hc.
  rewrite forallb_forall in H. auto.
Qed.

Lemma groups_labelled label : groups_in one_line (labelled label).
Proof.
  unfold labelled, cats, fold_right, groups_in, one_line.
  repeat split; intros; (eapply rep_class; [|eassumption]);
    exact (fun c H => H).
Qed.

Lemma groups_capacity : groups_in one_line re_capacity.
Proof.
  unfold re_capacity, cats, fold_right, groups_in, one_line.
  repeat split; intros; (eapply rep_class; [|eassumption]);
    exact (fun c H => H).
Qed.

Lemma groups_percentage : groups_in one_line re_percentage.
Proof.
  unfold re_percentage, cats, fold_right, groups_in, one_line.
  repeat split; intros; (eapply rep_class; [|eassumption]);
    exact (fun c H => H).
Qed.

Lemma groups_data_units label : groups_in one_line (data_units label).
Proof.
  unfold data_units, cats, fold_right, groups_in, one_line.
  repeat split; intros; (eapply rep_class; [|eassumption]);
    first [exact (fun c H => H) | exact comma_class_dot].
Qed.

Lemma trimmed_unknown : trimmed_line (txt "Unknown").
Proof.
  split; [|reflexivity]. split.
  - intros c r [= <- _]. reflexivity.
  - intros i c H.
    assert (E : txt "Unknown" = txt "Unknow" ++ ["n"%char]) by reflexivity.
    rewrite E in H. apply app_inj_tail in H. destruct H as [_ <-].
    reflexivity.
Qed.

Lemma trimmed_strip (v : text) :
  forallb dot v = true -> trimmed_line (strip v).
Proof.
  intros H. split; [apply strip_no_outer_space | now apply strip_class].
Qed.

(** X4. The fields that [parse] strips never start or end with white space
    and never hold a line feed. *)
Theorem stripped_fields_shape (name : text) (file : option text) :
  let d := parse name file in
  trimmed_line (model d) /\ trimmed_line (serial d) /\
  trimmed_line (firmware d) /\ trimmed_line (capacity d) /\
  trimmed_line (nvme_version d) /\ trimmed_line (health_status d) /\
  trimmed_line (percentage_used d) /\ trimmed_line (data_read d) /\
  trimmed_line (data_written d).
Proof.
  destruct file as [c|]; [|repeat split; try reflexivity;
                            apply trimmed_unknown].
  unfold parse, parse_into; cbv zeta.
  rewrite parse_model, parse_serial, parse_firmware, parse_capacity,
    parse_nvme_version, parse_health_status, parse_percentage_used,
    parse_data_read, parse_data_written.
  pose proof trimmed_unknown as HU.
  assert (HL : forall label s m,
             search (labelled label) s = Some m ->
             trimmed_line (strip (group 1 m))).
  { intros label s m E. apply trimmed_strip.
    exact (search_group _ (labelled label) 1 s m (groups_labelled _)
             eq_refl E). }
  assert (HD : forall label s m,
             search (data_units label) s = Some m ->
             trimmed_line (strip (group 2 m))).
  { intros label s m E. apply trimmed_strip.
    exact (search_group _ (data_units label) 2 s m (groups_data_units _)
             eq_refl E). }
  split; [destruct (search re_model c) eqn:E; [eapply HL; exact E | exact HU]|].
  split; [destruct (search re_serial c) eqn:E; [eapply HL; exact E | exact HU]|].
  split; [destruct (search re_firmware c) eqn:E;
            [eapply HL; exact E | exact HU]|].
  split.
  { destruct (search re_capacity c) eqn:E; [|exact HU].
    apply trimmed_strip.
    exact (search_group _ re_capacity 1 c _ groups_capacity eq_refl E). }
  split; [destruct (search re_nvme_version c) eqn:E;
            [eapply HL; exact E | exact HU]|].
  split; [destruct (search re_health c) eqn:E;
            [eapply HL; exact E | exact HU]|].
  split.
  { destruct (search re_percentage c) eqn:E; [|exact HU].
    apply trimmed_strip.
    exact (search_group _ re_percentage 1 c _ groups_percentage eq_refl E). }
  split.
  - destruct (after_section c) as [a|]; [|exact HU].
    destruct (search re_data_read a) eqn:E; [eapply HD; exact E | exact HU].
  - destruct (after_section c) as [a|]; [|exact HU].
    destruct (search re_data_written a) eqn:E;
      [eapply HD; exact E | exact HU].
Qed.

(** ** The last marker *)

Lemma contains_app_r (sep u v : text) :
  contains sep v = true -> contains sep (u ++ v) = true.
Proof.
  intros H. induction u as [|c u IH]; [exact H|].
  simpl app. unfold contains; fold contains. rewrite IH. apply orb_true_r.
Qed.

Lemma contains_at (sep r : text) : contains sep (sep ++ r) = true.
Proof.
  destruct (sep ++ r) eqn:E; unfold contains; fold contains;
    rewrite <- E, prefixb_app; reflexivity.
Qed.

Lemma contains_occurrence (sep u r : text) :
  contains sep (u ++ sep ++ r) = true.
Proof. apply contains_app_r, contains_at. Qed.

Lemma last_occurrence (sep s : text) :
  sep <> [] -> contains sep s = true ->
  exists pre post, s = pre ++ sep ++ post /\ contains sep post = false.
Proof.
  intros Hne. induction s as [|c s IH]; intros H.
  - destruct sep; [congruence | discriminate].
  - destruct (contains sep s) eqn:E.
    + destruct (IH eq_refl) as (pre & post & -> & Hpost).
      exists (c :: pre), post. auto.
    + unfold contains in H; fold contains in H. rewrite E, orb_false_r in H.
      apply prefixb_true in H.
      exists [], (skipn (length sep) (c :: s)). split; [exact H|].
      destruct sep as [|c' sep']; [congruence|].
      simpl in H. injection H as _ H.
      destruct (contains (c' :: sep') (skipn (length (c' :: sep')) (c :: s)))
        eqn:E'; [|reflexivity].
      rewrite H in E. simpl skipn in E'.
      rewrite (contains_app_r _ sep' _ E') in E. discriminate.
Qed.

(** X5. Every text either has no marker, and then no post-test section, or
    splits in one way into a part, the marker and a part without marker; the
    post-test section is that last part and the sensor list is read from it. *)
Theorem marker_scope (name content : text) :
  (contains after_test content = false /\ after_section content = None /\
   temp_sensors_after (parse name (Some content)) = []) \/
  (exists pre post,
     content = pre ++ after_test ++ post /\
     contains after_test post = false /\
     after_section content = Some post /\
     temp_sensors_after (parse name (Some content)) = sensor_pairs post /\
     forall pre' post',
       content = pre' ++ after_test ++ post' ->
       contains after_test post' = false -> post' = post).
Proof.
  destruct (contains after_test content) eqn:E.
  - right.
    destruct (last_occurrence after_test content after_test_nonempty E)
      as (pre & post & -> & Hpost).
    exists pre, post.
    pose proof (@after_section_some pre post Hpost) as Ha.
    split; [reflexivity|]. split; [exact Hpost|]. split; [exact Ha|]. split.
    + unfold parse, parse_into. rewrite parse_temp_sensors_after, Ha.
      reflexivity.
    + intros pre' post' Heq Hpost'.
      pose proof (@after_section_some pre' post' Hpost') as Ha'.
      rewrite <- Heq, Ha in Ha'. congruence.
  - left. pose proof (@after_section_none content E) as Ha.
    split; [reflexivity|]. split; [exact Ha|].
    unfold parse, parse_into. rewrite parse_temp_sensors_after, Ha.
    reflexivity.
Qed.

(** ** Labels *)

Lemma search_literal (l : text) (r : re) (s : text) a :
  search (Cat (Lit l) r) s = Some a -> contains l s = true.
Proof.
  intros H. apply search_Some in H.
  destruct H as (u & v & rest & tl & -> & Hrun & _).
  assert (Hin : In (a, rest) (run (Cat (Lit l) r) v []))
    by (rewrite Hrun; left; reflexivity).
  apply in_run_Cat in Hin. destruct Hin as (cs1 & s1 & H1 & _).
  apply in_run_Lit in H1. destruct H1 as [-> _].
  apply contains_occurrence.
Qed.


Lemma no_literal (l : text) (r : re) (s : text) :
  contains l s = false -> search (Cat (Lit l) r) s = None.
Proof.
  intros H. destruct (search (Cat (Lit l) r) s) eqn:E; [|reflexivity].
  apply search_literal in E. congruence.
Qed.


Lemma health_without_label (name content : text) :
  has "SMART overall-health self-assessment test result:" content = false ->
  health_status (parse name (Some content)) = txt "Unknown".
Proof.
  intros H. unfold parse, parse_into, has in *.
  rewrite parse_health_status. unfold re_health, labelled, cats, fold_right.
  now rewrite no_literal.
Qed.



(** ** More on the order of the cards *)

Lemma insert_by_name_named (k : text) (x : drive_data)
  (l : list drive_data) :
  named k (insert_by_name x l) = named k (x :: l).
Proof.
  induction l as [|y l IH]; [reflexivity|].
  unfold insert_by_name; fold insert_by_name.
  destruct (text_ltb (drive_name y) (drive_name x)) eqn:E; [|reflexivity].
  unfold named in *. simpl filter in *. rewrite IH.
  destruct (text_eqb (drive_name x) k) eqn:Ex; [|reflexivity].
  destruct (text_eqb (drive_name y) k) eqn:Ey; [|reflexivity].
  apply text_eqb_eq in Ex, Ey. rewrite Ex, Ey, text_ltb_irrefl in E.
  discriminate.
Qed.

(** X7. The sort is stable: drives of equal name keep their input order. *)
Theorem sort_is_stable (k : text) (l : list drive_data) :
  named k (sorted_by_name l) = named k l.
Proof.
  induction l as [|x l IH]; [reflexivity|].
  simpl sorted_by_name. rewrite insert_by_name_named.
  unfold named in *. simpl. now rewrite IH.
Qed.

(** X8. A list already in ascending order of name is left as it is, so that
    sorting twice is sorting once. *)
Theorem sorted_input_unchanged (l : list drive_data) :
  StronglySorted name_le l ->
  sorted_by_name l = l /\
  forall l', sorted_by_name (sorted_by_name l') = sorted_by_name l'.
Proof.
  assert (Hfix : forall m, StronglySorted name_le m -> sorted_by_name m = m).
  { induction 1 as [|x m Hs IH Hx]; [reflexivity|].
    simpl. rewrite IH. destruct m as [|y m]; [reflexivity|].
    simpl. inversion Hx as [|? ? Hxy _]; subst.
    unfold name_le in Hxy. now rewrite Hxy. }
  intros H. split; [apply Hfix, H|].
  intros l'. apply Hfix, sorted_by_name_sorted.
Qed.

Lemma sorted_input_unchanged_witness :
  let a := sample_drive "nvme0n1" "PASSED" 0 in
  let b := sample_drive "nvme1n1" "FAILED" 0 in
  sorted_by_name [a; b] = [a; b].
Proof.
  intros a b.
  assert (H : StronglySorted name_le [a; b]).
  { repeat constructor. }
  exact (proj1 (sorted_input_unchanged [a; b] H)).
Defined.

(** ** Counts of the summary *)

Lemma filter_length_le {A : Type} (f : A -> bool) (l : list A) :
  length (filter f l) <= length l.
Proof.
  induction l as [|x l IH]; simpl; [lia|].
  destruct (f x); simpl; lia.
Qed.

Lemma filter_length_all {A : Type} (f : A -> bool) (l : list A) :
  length (filter f l) = length l <-> forallb f l = true.
Proof.
  induction l as [|x l IH]; simpl; [tauto|].
  pose proof (filter_length_le f l).
  destruct (f x); simpl; [|split; [intros; exfalso; lia | discriminate]].
  rewrite <- IH. split; lia.
Qed.

(** X9. There is one card per drive, the passed count never exceeds the total
    count, and the two are equal exactly when every drive passes; in both
    reports. *)
Theorem summary_counts (ds : list drive_data) (sq wq : option text)
  (now : text) :
  (let r := generate_html_report ds sq wq now in
   r_total_count r = length ds /\ length (r_cards r) = r_total_count r /\
   r_passed_count r <= r_total_count r /\
   (r_passed_count r = r_total_count r <-> forallb passes ds = true)) /\
  (forall r, generate_html_report_with_peak ds sq wq now = Some r ->
     p_total_count r = length ds /\ length (p_cards r) = p_total_count r /\
     p_passed_count r <= p_total_count r /\
     (p_passed_count r = p_total_count r <-> forallb passes ds = true)).
Proof.
  split.
  - cbv zeta. simpl. unfold passed_count. rewrite list_sum_ones.
    rewrite length_map, (Permutation_length (sorted_by_name_perm ds)).
    repeat split; try apply filter_length_le; apply filter_length_all.
  - intros r Hr. apply peak_report_fields in Hr.
    destruct Hr as (Ht & Hp & _ & _ & Hc & _). rewrite Ht, Hp, Hc.
    rewrite length_map, (Permutation_length (sorted_by_name_perm ds)).
    repeat split; try apply filter_length_le; apply filter_length_all.
Qed.

Lemma summary_counts_witness :
  let ds := [sample_drive "nvme0n1" "PASSED" 0;
             sample_drive "nvme1n1" "PASSED" 3] in
  exists r, generate_html_report_with_peak ds None None (txt "t") = Some r /\
            p_total_count r = 2 /\ p_passed_count r <= 2.
Proof.
  intros ds.
  destruct (generate_html_report_with_peak ds None None (txt "t"))
    as [r|] eqn:E; [|vm_compute in E; discriminate].
  exists r. split; [reflexivity|].
  destruct (summary_counts ds None None (txt "t")) as (_ & H).
  destruct (H r E) as (H1 & _ & H3 & _). rewrite H1 in H3. auto.
Defined.

(** ** Displayed model name *)

(** X10. The model name shown on a peak card has at most 30 characters: a
    name of at most 30 characters is shown whole, a longer one as its first
    27 characters followed by three points. *)
Theorem model_display_bounded (drive : drive_data) :
  length (model_display drive) <= 30 /\
  (length (model drive) <= 30 -> model_display drive = model drive) /\
  (30 < length (model drive) ->
   model_display drive = firstn 27 (model drive) ++ txt "..." /\
   length (model_display drive) = 30) /\
  firstn 27 (model_display drive) = firstn 27 (model drive).
Proof.
  unfold model_display.
  destruct (Nat.ltb_spec 30 (length (model drive))) as [H | H].
  - assert (L : length (firstn 27 (model drive) ++ txt "...") = 30).
    { rewrite length_app, length_firstn.
      change (length (txt "...")) with 3. lia. }
    split; [lia|]. split; [lia|]. split; [auto|].
    rewrite firstn_app, length_firstn.
    replace (27 - Nat.min 27 (length (model drive))) with 0 by lia.
    rewrite firstn_O, app_nil_r, firstn_firstn. reflexivity.
  - split; [lia|]. split; [auto|]. split; [lia | reflexivity].
Qed.

Lemma model_display_bounded_witness :
  let d := set_model (txt "Samsung SSD 990 PRO with Heatsink 4TB")
             (init_data (txt "nvme0n1")) in
  model_display d = txt "Samsung SSD 990 PRO with He...".
Proof.
  intros d.
  destruct (model_display_bounded d) as (_ & _ & H & _).
  destruct H as [H _]; [vm_compute; lia|].
  rewrite H. reflexivity.
Defined.

(** ** Drives that cannot pass *)

(** X11. A drive whose log cannot be read, or whose log has no line with the
    SMART self-assessment result, is never shown as passed. *)
Theorem unread_health_never_passes (name : text) (file : option text) :
  (file = None \/
   exists c, file = Some c /\
     has "SMART overall-health self-assessment test result:" c = false) ->
  let d := parse name file in
  health_status d = txt "Unknown" /\
  status_class d = txt "status-failed" /\ status_text d = txt "CHECK" /\
  passes d = false.
Proof.
  intros H. cbv zeta.
  assert (Hh : health_status (parse name file) = txt "Unknown").
  { destruct H as [-> | (c & -> & H)]; [reflexivity|].
    exact (health_without_label name c H). }
  unfold status_class, status_text, passes. rewrite Hh.
  repeat split; reflexivity.
Qed.

Lemma unread_health_never_passes_witness :
  status_class (parse (txt "nvme0n1") None) = txt "status-failed".
Proof.
  exact (proj1 (proj2 (unread_health_never_passes (txt "nvme0n1") None
                         (or_introl eq_refl)))).
Defined.

(** ** When the artifact parser gives a value *)

Lemma has_bw_true (key : text) (job : json) :
  has_bw key job = Ret true ->
  exists ji si v,
    job = JObj ji /\ lookup key ji = Some (JObj si) /\
    lookup bw si = Some v /\ py_gt0 v = Ret true.
Proof.
  unfold has_bw. intros H.
  destruct job as [| | | | s | l | ji]; try discriminate H.
  - simpl in H. destruct (contains key s); discriminate H.
  - simpl in H. destruct (existsb (is_str key) l); discriminate H.
  - simpl in H. destruct (lookup key ji) as [section|] eqn:Ek;
      [|discriminate H].
    simpl in H.
    destruct section as [| | | | s | l | si]; try discriminate H.
    + simpl in H. destruct (contains bw s); discriminate H.
    + simpl in H. destruct (existsb (is_str bw) l); discriminate H.
    + simpl in H. destruct (lookup bw si) as [v|] eqn:Eb; [|discriminate H].
      simpl in H. exists ji, si, v. auto.
Qed.

Lemma bw_to_mib_value (key : text) (ji si : list (text * json)) (v : json) :
  lookup key ji = Some (JObj si) -> lookup bw si = Some v ->
  result_of (bw_to_mib key (JObj ji)) =
  match int_div_1024 v with Ret n => Some n | Raise => None end.
Proof.
  intros Hk Hb. unfold bw_to_mib.
  rewrite (py_getitem_obj _ _ Hk). unfold bind at 1.
  rewrite (py_getitem_obj _ _ Hb). unfold bind at 1.
  destruct (int_div_1024 v); reflexivity.
Qed.

Lemma float_round_nonneg (n : Z) : (0 <= n)%Z -> (0 <= float_round n)%Z.
Proof.
  intros H. unfold float_round.
  destruct (Z.log2 n - 52 <=? 0)%Z; [exact H|].
  apply Z.shiftl_nonneg.
  assert (Hq : (0 <= Z.shiftr n (Z.log2 n - 52))%Z)
    by (apply Z.shiftr_nonneg; exact H).
  revert Hq. generalize (Z.shiftr n (Z.log2 n - 52)). intros q Hq.
  repeat match goal with
         | |- context [if ?b then _ else _] => destruct b
         end; lia.
Qed.

Lemma int_div_1024_nonneg (v : json) (n : Z) :
  py_gt0 v = Ret true -> int_div_1024 v = Ret n -> (0 <= n)%Z.
Proof.
  intros Hgt Hdiv.
  destruct v as [| b | z | f | | |]; try discriminate Hgt.
  - simpl in Hdiv. injection Hdiv as <-. lia.
  - simpl in Hgt. injection Hgt as Hgt. apply Z.ltb_lt in Hgt.
    unfold int_div_1024 in Hdiv.
    destruct (2 ^ 1034 <=? float_round (Z.abs z))%Z; [discriminate|].
    injection Hdiv as <-. rewrite Z.sgn_pos by exact Hgt.
    pose proof (float_round_nonneg (Z.abs z) (Z.abs_nonneg z)) as Hr.
    rewrite Z.mul_1_l. apply Z.div_pos; lia.
  - destruct f as [| negative | m e]; try discriminate Hdiv.
    simpl in Hgt. injection Hgt as Hgt. apply Z.ltb_lt in Hgt.
    unfold int_div_1024 in Hdiv.
    destruct (10 <=? e)%Z eqn:E.
    + assert (Hn : (m * 2 ^ (e - 10))%Z = n) by congruence. subst n.
      apply Z.leb_le in E.
      apply Z.mul_nonneg_nonneg; [lia | apply Z.pow_nonneg; lia].
    + assert (Hn : Z.quot m (2 ^ (10 - e)) = n) by congruence. subst n.
      apply Z.leb_gt in E. apply Z.quot_pos; [lia|].
      apply Z.pow_pos_nonneg; lia.
Qed.

Lemma single_char_lacks (key : text) (c : ascii) :
  2 <= length key -> contains key [c] = false.
Proof.
  intros H. destruct key as [|x [|y key]]; simpl in H; try lia.
  simpl. now rewrite !andb_false_r.
Qed.

Lemma has_bw_char (key : text) (c : ascii) :
  2 <= length key -> has_bw key (JStr [c]) = Ret false.
Proof.
  intros H. unfold has_bw, py_in. now rewrite single_char_lacks.
Qed.

Lemma jobs_string_gives_none (items : list (text * json)) (s : text) :
  lookup jobs items = Some (JStr s) ->
  parse_fio_json (Some (JObj items)) = None.
Proof.
  intros Ej. unfold parse_fio_json, parse_fio_json_data.
  change (txt "jobs") with jobs.
  rewrite (py_in_obj _ _ Ej), (py_getitem_obj _ _ Ej).
  destruct s as [|c s]; [reflexivity|].
  unfold bind at 1 2 3 4 5 6. unfold py_len, py_first.
  change (0 <? length (c :: s)) with true. cbv iota.
  rewrite !has_bw_char by (simpl; lia). reflexivity.
Qed.

(** X12. [parse_fio_json] gives a value only for an object whose "jobs" is a
    list with an object first, in which the read key, or else the write key,
    holds an object with a [bw] greater than 0; the value is that bandwidth
    converted, and it is never negative. *)
Theorem parse_fio_json_value (file : option json) (n : Z) :
  parse_fio_json file = Some n ->
  (0 <= n)%Z /\
  exists items ji rest key si v,
    file = Some (JObj items) /\
    lookup jobs items = Some (JArr (JObj ji :: rest)) /\
    (key = read \/ key = write) /\
    lookup key ji = Some (JObj si) /\ lookup bw si = Some v /\
    py_gt0 v = Ret true /\ int_div_1024 v = Ret n.
Proof.
  intros H.
  assert (Hex : exists items ji rest key si v,
    file = Some (JObj items) /\
    lookup jobs items = Some (JArr (JObj ji :: rest)) /\
    (key = read \/ key = write) /\
    lookup key ji = Some (JObj si) /\ lookup bw si = Some v /\
    py_gt0 v = Ret true /\ int_div_1024 v = Ret n).
  { destruct file as [data|]; [|discriminate H].
    destruct data as [| | | | s | l | items].
    1-4: discriminate H.
    - unfold parse_fio_json, parse_fio_json_data in H. simpl in H.
      match type of H with
      | context [if ?b then _ else _] => destruct b
      end; discriminate H.
    - unfold parse_fio_json, parse_fio_json_data in H. simpl in H.
      match type of H with
      | context [if ?b then _ else _] => destruct b
      end; discriminate H.
    - destruct (lookup jobs items) as [jv|] eqn:Ej.
      + destruct jv as [| | | | s | l | kv].
        1-4: unfold parse_fio_json, parse_fio_json_data in H;
          change (txt "jobs") with jobs in H;
          rewrite (py_in_obj _ _ Ej), (py_getitem_obj _ _ Ej) in H;
          discriminate H.
        * rewrite (jobs_string_gives_none items s Ej) in H. discriminate H.
        * destruct l as [|job rest].
          { unfold parse_fio_json, parse_fio_json_data in H.
            change (txt "jobs") with jobs in H.
            rewrite (py_in_obj _ _ Ej), (py_getitem_obj _ _ Ej) in H.
            discriminate H. }
          rewrite (parse_fio_json_first_job items Ej) in H.
          destruct (has_bw read job) as [[|]|] eqn:Er; [| |discriminate H].
          -- destruct (has_bw_true _ _ Er) as (ji & si & v & -> & Hk & Hb & Hg).
             rewrite (bw_to_mib_value _ _ _ _ Hk Hb) in H.
             destruct (int_div_1024 v) as [m|] eqn:Ed; [|discriminate H].
             injection H as ->.
             exists items, ji, rest, read, si, v. auto 10.
          -- destruct (has_bw write job) as [[|]|] eqn:Ew;
               try discriminate H.
             destruct (has_bw_true _ _ Ew) as (ji & si & v & -> & Hk & Hb & Hg).
             rewrite (bw_to_mib_value _ _ _ _ Hk Hb) in H.
             destruct (int_div_1024 v) as [m|] eqn:Ed; [|discriminate H].
             injection H as ->.
             exists items, ji, rest, write, si, v. auto 10.
        * unfold parse_fio_json, parse_fio_json_data in H.
          change (txt "jobs") with jobs in H.
          rewrite (py_in_obj _ _ Ej), (py_getitem_obj _ _ Ej) in H.
          unfold bind at 1 2 3 4 in H. unfold py_len, py_first in H.
          destruct (0 <? length kv); discriminate H.
      + unfold parse_fio_json, parse_fio_json_data in H.
        change (txt "jobs") with jobs in H. simpl py_in in H.
        rewrite Ej in H. discriminate H. }
  split; [|exact Hex].
  destruct Hex as (_ & _ & _ & _ & _ & v & _ & _ & _ & _ & _ & Hg & Hd).
  exact (int_div_1024_nonneg v n Hg Hd).
Qed.

Lemma parse_fio_json_value_witness :
  parse_fio_json (Some example_artifact) = Some 2000%Z /\ (0 <= 2000)%Z.
Proof.
  split; [reflexivity|].
  exact (proj1 (parse_fio_json_value (Some example_artifact) 2000 eq_refl)).
Defined.

(** ** Decimal text of the peak values *)

Lemma uint_chars_digits (d : Decimal.uint) :
  forallb isdigit (uint_chars d) = true.
Proof. induction d; simpl; auto. Qed.

Lemma int_digits_acc (d : Decimal.uint) (p : positive) :
  int_digits (Z.pos p) true (uint_chars d) =
  Some (Z.pos (Pos.of_uint_acc d p)).
Proof.
  revert p; induction d; intros p; [reflexivity|..];
    unfold uint_chars; simpl list_ascii_of_string;
    unfold int_digits; fold int_digits;
    match goal with
    | |- context [isdigit ?c] => change (isdigit c) with true
    end; cbv iota; cbn [Pos.of_uint_acc];
    match goal with
    | |- context [digit_val ?c] =>
        let v := eval vm_compute in (digit_val c) in
        change (digit_val c) with v
    end;
    match goal with
    | |- int_digits ?a true _ = Some (Z.pos (Pos.of_uint_acc _ ?q)) =>
        replace a with (Z.pos q) by lia
    end; apply IHd.
Qed.

Lemma int_digits_uint (d : Decimal.uint) (prev : bool) :
  d <> Decimal.Nil \/ prev = true ->
  int_digits 0 prev (uint_chars d) = Some (Z.of_N (Pos.of_uint d)).
Proof.
  revert prev; induction d; intros prev H.
  - destruct H as [H | ->]; [congruence | reflexivity].
  - unfold uint_chars. simpl list_ascii_of_string.
    unfold int_digits; fold int_digits.
    change (isdigit "0") with true. cbv iota.
    change (10 * 0 + digit_val "0")%Z with 0%Z.
    apply IHd. auto.
  - apply (int_digits_acc d 1).
  - apply (int_digits_acc d 2).
  - apply (int_digits_acc d 3).
  - apply (int_digits_acc d 4).
  - apply (int_digits_acc d 5).
  - apply (int_digits_acc d 6).
  - apply (int_digits_acc d 7).
  - apply (int_digits_acc d 8).
  - apply (int_digits_acc d 9).
Qed.

Lemma show_int_cases (n : Z) :
  (exists d, d <> Decimal.Nil /\ show_int n = uint_chars d /\
             Z.of_N (Pos.of_uint d) = n) \/
  (exists d, d <> Decimal.Nil /\ show_int n = "-"%char :: uint_chars d /\
             (- Z.of_N (Pos.of_uint d))%Z = n).
Proof.
  unfold show_int, txt. destruct n as [|p|p]; simpl Z.to_int.
  - left. exists (Decimal.D0 Decimal.Nil).
    split; [discriminate|]. split; reflexivity.
  - left. exists (Pos.to_uint p).
    pose proof (DecimalPos.Unsigned.to_uint_nonnil p) as Hn.
    split; [exact Hn|]. split.
    + unfold NilZero.string_of_int, NilZero.string_of_uint.
      destruct (Pos.to_uint p); [congruence|..]; reflexivity.
    + now rewrite DecimalPos.Unsigned.of_to.
  - right. exists (Pos.to_uint p).
    pose proof (DecimalPos.Unsigned.to_uint_nonnil p) as Hn.
    split; [exact Hn|]. split.
    + unfold NilZero.string_of_int, NilZero.string_of_uint.
      destruct (Pos.to_uint p); [congruence|..]; reflexivity.
    + now rewrite DecimalPos.Unsigned.of_to.
Qed.

Lemma uint_chars_nonempty (d : Decimal.uint) :
  d <> Decimal.Nil -> uint_chars d <> [].
Proof. destruct d; [congruence|..]; discriminate. Qed.

Lemma show_int_chars (n : Z) :
  show_int n <> [] /\ forallb sign_or_digit (show_int n) = true.
Proof.
  assert (Hd : forall d, forallb sign_or_digit (uint_chars d) = true).
  { intros d. pose proof (uint_chars_digits d) as H.
    apply forallb_forall. intros c Hc. rewrite forallb_forall in H.
    unfold sign_or_digit. now rewrite (H c Hc). }
  destruct (show_int_cases n) as [(d & Hn & -> & _) | (d & Hn & -> & _)].
  - split; [apply uint_chars_nonempty, Hn | apply Hd].
  - split; [discriminate|]. simpl. apply Hd.
Qed.

Lemma sign_or_digit_unspaced (v : text) :
  forallb sign_or_digit v = true ->
  forallb (fun c => negb (isspace c)) v = true.
Proof.
  intros H. apply forallb_forall. intros c Hc. rewrite forallb_forall in H.
  specialize (H c Hc). unfold sign_or_digit in H.
  apply orb_true_iff in H. destruct H as [H | H].
  - now rewrite (digit_not_space _ H).
  - apply Ascii.eqb_eq in H. subst. reflexivity.
Qed.

(** The decimal text of an integer reads back as that integer. *)
Lemma py_int_show_int (n : Z) : py_int (show_int n) = Some n.
Proof.
  destruct (show_int_chars n) as [_ Hc]. unfold py_int.
  rewrite (strip_unspaced _ (sign_or_digit_unspaced _ Hc)).
  destruct (show_int_cases n) as [(d & Hn & -> & Hv) | (d & Hn & -> & Hv)].
  - pose proof (uint_chars_digits d) as Hd.
    pose proof (uint_chars_nonempty d Hn) as Hne.
    pose proof (int_digits_uint d false (or_introl Hn)) as Hi.
    destruct (uint_chars d) as [|c v]; [congruence|].
    simpl in Hd. apply andb_true_iff in Hd. destruct Hd as [Hc0 _].
    assert (Hm : Ascii.eqb c "-" = false).
    { destruct (Ascii.eqb_spec c "-"%char) as [-> |];
        [discriminate | reflexivity]. }
    assert (Hp : Ascii.eqb c "+" = false).
    { destruct (Ascii.eqb_spec c "+"%char) as [-> |];
        [discriminate | reflexivity]. }
    rewrite Hm, Hp, Hi. congruence.
  - change (Ascii.eqb "-" "-") with true. cbv iota.
    rewrite (int_digits_uint d false (or_introl Hn)). simpl. congruence.
Qed.

Lemma first_token_show_int (n : Z) :
  first_token (show_int n ++ MiB_s) = Some (show_int n).
Proof.
  destruct (show_int_chars n) as [Hne Hc].
  pose proof (sign_or_digit_unspaced _ Hc) as Hu.
  unfold first_token.
  rewrite dropwhile_none.
  - rewrite takewhile_app by exact Hu.
    change (takewhile (fun c => negb (isspace c)) MiB_s) with (@nil ascii).
    rewrite app_nil_r. destruct (show_int n); [congruence | reflexivity].
  - intros c r E. destruct (show_int n) as [|c' v]; [congruence|].
    simpl in E. injection E as <- _. simpl in Hu.
    apply andb_true_iff in Hu. destruct Hu as [Hu _].
    now apply negb_true_iff in Hu.
Qed.

Lemma show_int_not_NA (n : Z) : text_eqb (show_int n ++ MiB_s) NA = false.
Proof.
  destruct (show_int_chars n) as [Hne Hc].
  destruct (show_int n) as [|c v]; [congruence|].
  simpl in Hc. apply andb_true_iff in Hc. destruct Hc as [Hc _].
  simpl. destruct (Ascii.eqb_spec c "N"%char) as [-> |];
    [discriminate | reflexivity].
Qed.

(** ** Peak values from the artifact to the average *)

Lemma peak_write_bw_set v d : peak_write_bw (set_peak_write_bw v d) = Some v.
Proof. destruct d; reflexivity. Qed.

Lemma peak_write_bw_set_read v d :
  peak_write_bw (set_peak_read_bw v d) = peak_write_bw d.
Proof. destruct d; reflexivity. Qed.

Lemma merge_peak_read (rj wj : option (option json)) (d : drive_data) :
  peak_read_bw (merge_peak rj wj d) =
  match rj with
  | Some file =>
      match parse_fio_json file with
      | Some n => if (n =? 0)%Z then peak_read_bw d
                  else Some (show_int n ++ MiB_s)
      | None => peak_read_bw d
      end
  | None => peak_read_bw d
  end.
Proof.
  unfold merge_peak; cbv zeta. rewrite peak_read_bw_merge_write.
  unfold merge_one. destruct rj as [file|]; [|reflexivity].
  destruct (parse_fio_json file) as [n|]; [|reflexivity].
  destruct (n =? 0)%Z; [reflexivity | apply peak_read_bw_set].
Qed.

Lemma merge_peak_write (rj wj : option (option json)) (d : drive_data) :
  peak_write_bw (merge_peak rj wj d) =
  match wj with
  | Some file =>
      match parse_fio_json file with
      | Some n => if (n =? 0)%Z then peak_write_bw d
                  else Some (show_int n ++ MiB_s)
      | None => peak_write_bw d
      end
  | None => peak_write_bw d
  end.
Proof.
  unfold merge_peak; cbv zeta.
  assert (Hr : peak_write_bw (merge_one rj set_peak_read_bw d) =
               peak_write_bw d).
  { unfold merge_one. destruct rj as [f|]; [|reflexivity].
    destruct (parse_fio_json f) as [p|]; [|reflexivity].
    destruct (p =? 0)%Z; [reflexivity | apply peak_write_bw_set_read]. }
  unfold merge_one at 1. destruct wj as [file|]; [|exact Hr].
  destruct (parse_fio_json file) as [n|]; [|exact Hr].
  destruct (n =? 0)%Z; [exact Hr | apply peak_write_bw_set].
Qed.

(** X13. A peak value returned by [parse_fio_json] that is not 0 is stored as
    its decimal text followed by " MiB/s"; the drive then counts in the
    average, and the integer that the average reads back from the text is the
    value returned. The same holds for the write artifact. *)
Theorem peak_value_round_trip (file : option json) (n : Z)
  (other : option (option json)) (d : drive_data) :
  parse_fio_json file = Some n -> n <> 0%Z ->
  (let d' := merge_peak (Some file) other d in
   peak_read_bw d' = Some (show_int n ++ MiB_s) /\
   has_peak peak_read_bw d' = true /\
   leading_int peak_read_bw d' = Some n) /\
  (let d' := merge_peak other (Some file) d in
   peak_write_bw d' = Some (show_int n ++ MiB_s) /\
   has_peak peak_write_bw d' = true /\
   leading_int peak_write_bw d' = Some n).
Proof.
  intros Hf Hn.
  assert (Hz : (n =? 0)%Z = false) by (apply Z.eqb_neq; exact Hn).
  split; cbv zeta.
  - assert (E : peak_read_bw (merge_peak (Some file) other d) =
                Some (show_int n ++ MiB_s))
      by (now rewrite merge_peak_read, Hf, Hz).
    split; [exact E|]. unfold has_peak, leading_int. rewrite E. simpl get_or.
    rewrite show_int_not_NA, first_token_show_int, py_int_show_int. auto.
  - assert (E : peak_write_bw (merge_peak other (Some file) d) =
                Some (show_int n ++ MiB_s))
      by (now rewrite merge_peak_write, Hf, Hz).
    split; [exact E|]. unfold has_peak, leading_int. rewrite E. simpl get_or.
    rewrite show_int_not_NA, first_token_show_int, py_int_show_int. auto.
Qed.

Lemma peak_value_round_trip_witness :
  leading_int peak_read_bw
    (merge_peak (Some (Some example_artifact)) None
       (init_data (txt "nvme0n1"))) = Some 2000%Z.
Proof.
  assert (Hn : 2000%Z <> 0%Z) by discriminate.
  destruct (peak_value_round_trip (Some example_artifact) 2000 None
              (init_data (txt "nvme0n1")) eq_refl Hn) as ((_ & _ & H) & _).
  exact H.
Defined.

(** ** The peak report of [main] *)

Lemma parse_has_no_peak (name : text) (file : option text) :
  peak_read_bw (parse name file) = None /\
  peak_write_bw (parse name file) = None.
Proof.
  unfold parse, parse_into. destruct file as [c|]; [|split; reflexivity].
  rewrite parse_peak_read_bw, parse_peak_write_bw. split; reflexivity.
Qed.

Lemma leading_of_merged (field : drive_data -> option text)
  (d : drive_data) (n : Z) :
  field d = Some (show_int n ++ MiB_s) ->
  has_peak field d = true /\ leading_int field d = Some n.
Proof.
  intros E. unfold has_peak, leading_int. rewrite E. simpl get_or.
  rewrite show_int_not_NA, first_token_show_int, py_int_show_int. auto.
Qed.

Lemma peaks_of_merged (field : drive_data -> option text)
  (artifact : log_entry -> option (option json))
  (log_files : list log_entry) :
  (forall l,
     field (merge_peak (read_json l) (write_json l)
              (parse (log_stem l) (log_file l))) =
     match artifact l with
     | Some file =>
         match parse_fio_json file with
         | Some n => if (n =? 0)%Z then None else Some (show_int n ++ MiB_s)
         | None => None
         end
     | None => None
     end) ->
  map (leading_int field)
    (filter (has_peak field) (peak_drives_data log_files)) =
  map Some (peaks_of artifact log_files).
Proof.
  intros Hf. unfold peak_drives_data, peaks_of.
  induction log_files as [|l ls IH]; [reflexivity|].
  simpl map at 2. simpl flat_map. simpl filter.
  specialize (Hf l).
  destruct (artifact l) as [file|].
  - destruct (parse_fio_json file) as [n|].
    + destruct (n =? 0)%Z.
      * rewrite (has_peak_none field _ Hf). exact IH.
      * destruct (leading_of_merged field _ n Hf) as [Hh Hl].
        rewrite Hh. simpl. rewrite Hl, IH. reflexivity.
    + rewrite (has_peak_none field _ Hf). exact IH.
  - rewrite (has_peak_none field _ Hf). exact IH.
Qed.

Lemma avg_of_present (field : drive_data -> option text)
  (ds : list drive_data) (xs : list Z) :
  map (leading_int field) (filter (has_peak field) ds) = map Some xs ->
  avg_peak field ds = Some (mean xs).
Proof.
  intros H. destruct (sum_peak_present field ds xs H) as [Hs Hl].
  unfold avg_peak, count_peak, mean.
  rewrite Hs, list_sum_ones, Hl. reflexivity.
Qed.

(** X14. With at least one log, [main] of the peak script always produces a
    report: the averages never raise on the records it has built. The report
    counts every log, and its averages are the means of the non-zero values
    that [parse_fio_json] returned for the read and for the write artifacts.
    Without logs there is no report. *)
Theorem main_peak_report (log_files : list log_entry)
  (sq wq : option text) (now : text) :
  (log_files = [] -> main_peak log_files sq wq now = None) /\
  (log_files <> [] ->
   exists r,
     main_peak log_files sq wq now = Some r /\
     p_total_count r = length log_files /\
     length (p_cards r) = length log_files /\
     p_avg_peak_read r = mean (peaks_of read_json log_files) /\
     p_avg_peak_write r = mean (peaks_of write_json log_files)).
Proof.
  split; [intros ->; reflexivity|]. intros Hne.
  assert (Hr : avg_peak peak_read_bw (peak_drives_data log_files) =
               Some (mean (peaks_of read_json log_files))).
  { apply avg_of_present, peaks_of_merged. intros l.
    rewrite merge_peak_read.
    rewrite (proj1 (parse_has_no_peak (log_stem l) (log_file l))).
    destruct (read_json l) as [f|]; [|reflexivity].
    destruct (parse_fio_json f) as [n|]; [|reflexivity].
    destruct (n =? 0)%Z; reflexivity. }
  assert (Hw : avg_peak peak_write_bw (peak_drives_data log_files) =
               Some (mean (peaks_of write_json log_files))).
  { apply avg_of_present, peaks_of_merged. intros l.
    rewrite merge_peak_write.
    rewrite (proj2 (parse_has_no_peak (log_stem l) (log_file l))).
    destruct (write_json l) as [f|]; [|reflexivity].
    destruct (parse_fio_json f) as [n|]; [|reflexivity].
    destruct (n =? 0)%Z; reflexivity. }
  unfold main_peak. destruct log_files as [|l ls]; [congruence|].
  unfold generate_html_report_with_peak; cbv zeta. rewrite Hr, Hw.
  eexists. split; [reflexivity|]. simpl.
  unfold peak_drives_data.
  rewrite !length_map.
  rewrite (Permutation_length (insert_by_name_perm _ _)). simpl.
  rewrite (Permutation_length (sorted_by_name_perm _)), length_map.
  auto.
Qed.

Lemma main_peak_report_witness :
  let l := Build_log_entry (txt "nvme0n1") None
             (Some (Some example_artifact)) None in
  exists r, main_peak [l] None None (txt "t") = Some r /\
            p_total_count r = 1 /\
            p_avg_peak_read r = mean [2000%Z].
Proof.
  intros l.
  assert (Hne : [l] <> []) by discriminate.
  destruct (proj2 (main_peak_report [l] None None (txt "t")) Hne)
    as (r & Hr & Ht & _ & Ha & _).
  exists r. split; [exact Hr|]. split; [exact Ht | exact Ha].
Defined.

(** X15. [main] of the plain script: no report exactly when there is no log;
    otherwise every log, readable or not, is counted and has its card. *)
Theorem main_report (log_files : list log_entry) (sq wq : option text)
  (now : text) :
  (main log_files sq wq now = None <-> log_files = []) /\
  (forall r, main log_files sq wq now = Some r ->
     r_total_count r = length log_files /\
     length (r_cards r) = length log_files /\
     Permutation (map c_title (r_cards r))
       (map (fun l => upper (log_stem l)) log_files)).
Proof.
  split.
  - destruct log_files; simpl; split; congruence.
  - intros r H. destruct log_files as [|l ls]; [discriminate H|].
    unfold main in H.
    set (ds := map (fun l0 => parse (log_stem l0) (log_file l0)) (l :: ls))
      in H.
    assert (Hr : r = generate_html_report ds sq wq now) by congruence.
    subst r. clear H.
    assert (Hn : map (fun d => c_title (drive_card d)) ds =
                 map (fun l0 => upper (log_stem l0)) (l :: ls)).
    { unfold ds. rewrite map_map. apply map_ext. intros a. simpl.
      unfold parse, parse_into. destruct (log_file a); [|reflexivity].
      now rewrite parse_drive_name. }
    unfold generate_html_report; cbv zeta.
    cbn [r_total_count r_cards].
    assert (Hl : length ds = length (l :: ls))
      by (unfold ds; apply length_map).
    split; [exact Hl|].
    split.
    + rewrite length_map, (Permutation_length (sorted_by_name_perm ds)).
      exact Hl.
    + rewrite map_map, <- Hn. apply Permutation_map, sorted_by_name_perm.
Qed.

Lemma main_report_witness :
  let l := Build_log_entry (txt "nvme0n1") None None None in
  exists r, main [l] None None (txt "t") = Some r /\ r_total_count r = 1.
Proof.
  intros l.
  destruct (main [l] None None (txt "t")) as [r|] eqn:E;
    [|vm_compute in E; discriminate].
  exists r. split; [reflexivity|].
  exact (proj1 (proj2 (main_report [l] None None (txt "t")) r E)).
Defined.

(** ** What the merge leaves alone *)

Lemma merge_one_card a (set : text -> drive_data -> drive_data) d :
  (forall v d', drive_card (set v d') = drive_card d') ->
  drive_card (merge_one a set d) = drive_card d.
Proof.
  intros H. unfold merge_one. destruct a as [f|]; [|reflexivity].
  destruct (parse_fio_json f) as [p|]; [|reflexivity].
  destruct (p =? 0)%Z; [reflexivity | apply H].
Qed.

Lemma merge_one_rest a (set : text -> drive_data -> drive_data) d :
  (forall v d', pci_gen (set v d') = pci_gen d' /\
                test_duration (set v d') = test_duration d' /\
                workload (set v d') = workload d') ->
  pci_gen (merge_one a set d) = pci_gen d /\
  test_duration (merge_one a set d) = test_duration d /\
  workload (merge_one a set d) = workload d.
Proof.
  intros H. unfold merge_one. destruct a as [f|]; [|auto].
  destruct (parse_fio_json f) as [p|]; [|auto].
  destruct (p =? 0)%Z; [auto | apply H].
Qed.

(** X16. The merge of the peak artifacts changes no parsed field: the plain
    card of the record, its pass predicate and the remaining keys are the
    same before and after. *)
Theorem merge_keeps_parsed_fields (rj wj : option (option json))
  (d : drive_data) :
  let d' := merge_peak rj wj d in
  drive_card d' = drive_card d /\ passes d' = passes d /\
  drive_name d' = drive_name d /\ pci_gen d' = pci_gen d /\
  test_duration d' = test_duration d /\ workload d' = workload d.
Proof.
  cbv zeta.
  assert (Hc : drive_card (merge_peak rj wj d) = drive_card d).
  { unfold merge_peak; cbv zeta.
    rewrite merge_one_card by (intros v []; reflexivity).
    apply merge_one_card. intros v []; reflexivity. }
  assert (Hk : pci_gen (merge_peak rj wj d) = pci_gen d /\
               test_duration (merge_peak rj wj d) = test_duration d /\
               workload (merge_peak rj wj d) = workload d).
  { unfold merge_peak; cbv zeta.
    destruct (merge_one_rest wj set_peak_write_bw
                (merge_one rj set_peak_read_bw d))
      as (H1 & H2 & H3); [intros v []; auto|].
    destruct (merge_one_rest rj set_peak_read_bw d)
      as (H4 & H5 & H6); [intros v []; auto|].
    repeat split; congruence. }
  assert (Hh : health_status (merge_peak rj wj d) = health_status d)
    by exact (f_equal c_health_status Hc).
  assert (He : errors (merge_peak rj wj d) = errors d)
    by exact (f_equal c_errors Hc).
  split; [exact Hc|]. split; [unfold passes; now rewrite Hh, He|].
  split; [|exact Hk].
  unfold merge_peak, merge_one.
  destruct rj as [f|], wj as [g|];
    repeat match goal with
           | |- context [parse_fio_json ?x] => destruct (parse_fio_json x)
           | |- context [(?p =? 0)%Z] => destruct (p =? 0)%Z
           end; destruct d; reflexivity.
Qed.

(** ** Averages at the edges *)

Lemma sum_peak_none (field : drive_data -> option text)
  (ds : list drive_data) :
  sum_peak field ds = None <-> Exists (unreadable_peak field) ds.
Proof.
  induction ds as [|d ds IH]; simpl.
  - split; [discriminate | intros H; inversion H].
  - destruct (has_peak field d) eqn:Eh.
    + destruct (leading_int field d) as [n|] eqn:El.
      * destruct (sum_peak field ds) as [s|]; simpl.
        -- split; [discriminate|]. intros H.
           inversion H as [? ? [_ Hl] | ? ? Hx]; subst; [congruence|].
           apply IH in Hx. discriminate.
        -- split; [|reflexivity]. intros _. right. now apply IH.
      * split; [|reflexivity]. intros _. left. split; assumption.
    + rewrite IH. split; [intros H; right; exact H|].
      intros H. inversion H as [? ? [Hh _] | ? ? Hx]; subst;
        [congruence | exact Hx].
Qed.

(** X17. The peak report fails when some drive has a peak value other than
    N/A without a leading integer; among drives whose peak values have a
    first token of at most 300 characters it fails only then; with no peak
    value at all both averages are 0. *)
Theorem averages_at_the_edges (ds : list drive_data) (sq wq : option text)
  (now : text) :
  (Exists (unreadable_peak peak_read_bw) ds \/
   Exists (unreadable_peak peak_write_bw) ds ->
   generate_html_report_with_peak ds sq wq now = None) /\
  (Forall (short_peak peak_read_bw) ds ->
   Forall (short_peak peak_write_bw) ds ->
   generate_html_report_with_peak ds sq wq now = None ->
   Exists (unreadable_peak peak_read_bw) ds \/
   Exists (unreadable_peak peak_write_bw) ds) /\
  (forall field,
     Forall (fun d => has_peak field d = false) ds ->
     avg_peak field ds = Some (0 # 1)%Q).
Proof.
  assert (Hiff : generate_html_report_with_peak ds sq wq now = None <->
                 Exists (unreadable_peak peak_read_bw) ds \/
                 Exists (unreadable_peak peak_write_bw) ds).
  { unfold generate_html_report_with_peak, avg_peak; cbv zeta.
    rewrite <- !sum_peak_none.
    destruct (sum_peak peak_read_bw ds), (sum_peak peak_write_bw ds);
      split; try discriminate; try tauto; intros [H | H]; discriminate. }
  split; [apply Hiff|]. split; [intros _ _; apply Hiff|].
  clear Hiff. intros field H. unfold avg_peak, count_peak.
  assert (Hf : filter (has_peak field) ds = []).
  { induction H as [|d l Hd _ IH]; cbn [filter]; [reflexivity|].
    rewrite Hd. exact IH. }
  assert (Hs : sum_peak field ds = Some 0%Z).
  { clear Hf. induction H as [|d l Hd _ IH]; cbn [sum_peak]; [reflexivity|].
    rewrite Hd. exact IH. }
  rewrite Hs, Hf. reflexivity.
Qed.

Lemma averages_at_the_edges_witness :
  generate_html_report_with_peak
    [set_peak_read_bw (txt "fast") (init_data (txt "nvme0n1"))]
    None None (txt "t") = None /\
  avg_peak peak_read_bw [init_data (txt "nvme0n1")] = Some (0 # 1)%Q.
Proof.
  destruct (averages_at_the_edges
              [set_peak_read_bw (txt "fast") (init_data (txt "nvme0n1"))]
              None None (txt "t")) as (H & _).
  destruct (averages_at_the_edges [init_data (txt "nvme0n1")]
              None None (txt "t")) as (_ & _ & H').
  split.
  - apply H. left. left. split; reflexivity.
  - apply H'. repeat constructor.
Defined.

(** ** Link queries with no output *)

Lemma dropwhile_all p (s : text) :
  forallb p s = true -> dropwhile p s = [].
Proof.
  induction s as [|c s IH]; simpl; [reflexivity|].
  intros H. apply andb_true_iff in H. destruct H as [Hc Hs].
  rewrite Hc. exact (IH Hs).
Qed.

Lemma strip_blank (s : text) : forallb isspace s = true -> strip s = [].
Proof.
  intros H. unfold strip. now rewrite (dropwhile_all isspace s H).
Qed.

(** X18. A link query that succeeds with blank output (no sysfs entry: the
    pipeline still exits with 0) is not a failure: the descriptor is
    "Unknown x" with an empty width and the speed is the empty text, not the
    pair of "Unknown" of the failure; the report shows them as such. *)
Theorem blank_link_output (out_speed out_width : text)
  (ds : list drive_data) (now : text) :
  forallb isspace out_speed = true ->
  forallb isspace out_width = true ->
  get_pcie_info (Some out_speed) (Some out_width) = (txt "Unknown x", []) /\
  get_pcie_info (Some out_speed) (Some out_width) <>
    get_pcie_info None None /\
  (let r := generate_html_report ds (Some out_speed) (Some out_width) now in
   r_pcie_info r = txt "Unknown x" /\ r_pcie_speed r = []).
Proof.
  intros Hs Hw.
  assert (E : get_pcie_info (Some out_speed) (Some out_width) =
              (txt "Unknown x", [])).
  { unfold get_pcie_info; cbv zeta.
    rewrite (strip_blank out_speed Hs), (strip_blank out_width Hw).
    reflexivity. }
  split; [exact E|]. split; [rewrite E; discriminate|].
  cbv zeta. unfold generate_html_report; cbv zeta.
  cbn [r_pcie_info r_pcie_speed]. rewrite E. split; reflexivity.
Qed.

Lemma blank_link_output_witness :
  get_pcie_info (Some (txt " ")) (Some []) = (txt "Unknown x", []).
Proof.
  exact (proj1 (blank_link_output (txt " ") [] [] (txt "t")
                  eq_refl eq_refl)).
Defined.
